(** * Quax: multiple dispatch over JAX primitives ([quax/_core.py])

    A shallow embedding of the interception layer of [quax/_core.py]: the
    dispatch registry, the [Value] hierarchy, the [_QuaxTrace] interpreter,
    the reconciliation step of the custom-derivative bridge, the rule for
    compiled subgraphs and the public entry point [quaxify].

    Python objects are dynamically typed, so the embedding has one universe
    [Obj] of objects and the [isinstance] tests of the source become boolean
    functions on it.  Code that can raise lives in the monad [M], a state
    monad over the host framework's trace stack with exceptions.

    The host framework (JAX) and the dispatcher (plum) are not part of the
    module.  What the interpreter needs of them is modelled after their
    contract: the trace stack with [new_main] and
    [ensure_compile_time_eval], [find_top_trace], [full_raise] and
    [full_lower], [bind], the iteration of an array and of a tracer, and
    the registration of a method with a dispatcher; the built-in
    implementations, the resolution of a method, the compiler and the code
    of clients ([materialise], [aval], the overrides of [default], the
    registered rules) are parameters.  A wrapped function is a jaxpr: a
    sequence of binds. *)

From stdpp Require Import base decidable option list strings gmap.
From Stdlib Require Import ZArith.

Local Open Scope string_scope.
Local Open Scope list_scope.
Set Warnings "-register-all".

(** ** Python objects *)

(** The concrete types covered by [jaxtyping.ArrayLike]. *)
Inductive ArrayKind := JaxArray | NumpyArray | PyScalar.

(** [jax.core.ShapedArray]: the abstract value of an array. *)
Record Aval := mkAval { shape : list nat; dtype : string }.

Record Array := mkArray { arr_kind : ArrayKind; arr_aval : Aval; arr_data : list Z }.

(** A class below [quax.Value].  A class is its qualified name, as [repr]
    prints it, whether its body defines the static method [default], and
    its base class (single inheritance); its identity is the whole chain. *)
Inductive Class :=
| Value_cls
| Sub (name : string) (defines_default : bool) (base : Class).

Definition ArrayValue_cls : Class := Sub "quax._core.ArrayValue" false Value_cls.
Definition _DenseArrayValue_cls : Class :=
  Sub "quax._core._DenseArrayValue" false ArrayValue_cls.

(** Objects.  [DenseV] is an instance of [_DenseArrayValue]; [CustomV] is an
    instance of any other subclass of [Value], an [eqx.Module] with static
    fields [aux] and dynamic fields [fields], each a leaf of the host's
    tree flattening; [QTracer] is a [_QuaxTracer], whose trace is a main
    trace (known by its level) and a sublevel; [SymZero] is the host's
    [SymbolicZero]; [Other] is any object that is neither array-like nor a
    [Value]. *)
Inductive Obj :=
| Arr (a : Array)
| DenseV (array : Obj)
| CustomV (cls : Class) (aux : list Z) (fields : list Obj)
| QTracer (level sublevel : nat) (value : Obj)
| SymZero (aval : Aval)
| Other (tyname : string).

Inductive PyType :=
| TArray (k : ArrayKind)
| TClass (c : Class)
| TQuaxTracer
| TSymbolicZero
| TOther (tyname : string).

Global Instance ArrayKind_eq_dec : EqDecision ArrayKind.
Proof. solve_decision. Defined.
Global Instance Class_eq_dec : EqDecision Class.
Proof. solve_decision. Defined.
Global Instance PyType_eq_dec : EqDecision PyType.
Proof. solve_decision. Defined.

(** [type(x)] *)
Definition type_of (x : Obj) : PyType :=
  match x with
  | Arr a => TArray (arr_kind a)
  | DenseV _ => TClass _DenseArrayValue_cls
  | CustomV c _ _ => TClass c
  | QTracer _ _ _ => TQuaxTracer
  | SymZero _ => TSymbolicZero
  | Other n => TOther n
  end.

Definition class_name (c : Class) : string :=
  match c with
  | Value_cls => "quax._core.Value"
  | Sub n _ _ => n
  end.

Definition kind_name (k : ArrayKind) : string :=
  match k with
  | JaxArray => "jaxlib.xla_extension.ArrayImpl"
  | NumpyArray => "numpy.ndarray"
  | PyScalar => "float"
  end.

(** [repr] of a type, as an f-string prints it. *)
Definition type_repr (t : PyType) : string :=
  "<class '" +:+
  match t with
  | TArray k => kind_name k
  | TClass c => class_name c
  | TQuaxTracer => "quax._core._QuaxTracer"
  | TSymbolicZero => "jax._src.custom_derivatives.SymbolicZero"
  | TOther n => n
  end +:+ "'>".

(** [isinstance(x, Value)], the source's [_is_value]. *)
Definition _is_value (x : Obj) : bool :=
  match x with
  | DenseV _ | CustomV _ _ _ => true
  | _ => false
  end.

(** [eqx.is_array_like]: arrays and scalars, and tracers, which the host
    declares as instances of [jax.Array]. *)
Definition is_array_like (x : Obj) : bool :=
  match x with
  | Arr _ | QTracer _ _ _ => true
  | _ => false
  end.

(** ** Exceptions and the host's trace state *)

Inductive Exn :=
| TypeError (msg : string)
| ValueError (msg : string)
| AssertionError
| RecursionError
| UnexpectedTracerError
| AmbiguousLookupError
| AttributeError
| Raised (msg : string).

Inductive Result (A : Type) :=
| Ok (a : A)
| Err (e : Exn).
Arguments Ok {A} a.
Arguments Err {A} e.

Inductive TraceType := EvalTrace | QuaxTrace.

Global Instance TraceType_eq_dec : EqDecision TraceType.
Proof. solve_decision. Defined.

(** [jax.core.MainTrace]; main traces are told apart by their level, the
    stack holding one main trace per level at any time. *)
Record MainTrace := mkMain { main_level : nat; trace_type : TraceType }.

Global Instance MainTrace_eq_dec : EqDecision MainTrace.
Proof. solve_decision. Defined.

(** The host's thread-local [trace_state]: the stack of main traces, the
    dynamic main trace and the current sublevel. *)
Record TraceState := mkState {
  stack : list MainTrace;
  dynamic : MainTrace;
  cur_sublevel : nat
}.

Definition base_main : MainTrace := mkMain 0 EvalTrace.
Definition initial_state : TraceState := mkState [base_main] base_main 0.

(** [jax.core.Trace]: a main trace with a sublevel. *)
Record Trace := mkTrace { main : MainTrace; sublevel : nat }.

Definition M (A : Type) : Type := TraceState -> Result A * TraceState.

Definition ret {A} (a : A) : M A := fun s => (Ok a, s).
Definition raise {A} (e : Exn) : M A := fun s => (Err e, s).
Definition bindM {A B} (m : M A) (k : A -> M B) : M B :=
  fun s => match m s with
           | (Ok a, s') => k a s'
           | (Err e, s') => (Err e, s')
           end.
Definition lift_result {A} (r : Result A) : M A := fun s => (r, s).

Declare Scope py_scope.
Delimit Scope py_scope with py.
Notation "'let*' x ':=' m 'in' k" := (bindM m (fun x => k))
  (at level 10, x name, m at level 100, k at level 200) : py_scope.
Local Open Scope py_scope.

(** A comprehension [[f(x) for x in xs]] whose body can raise. *)
Fixpoint for_each {A B} (f : A -> M B) (xs : list A) : M (list B) :=
  match xs with
  | [] => ret []
  | x :: rest => let* y := f x in let* ys := for_each f rest in ret (y :: ys)
  end.

(** ** Primitives, parameters and programs *)

(** A [jax.core.Primitive]: its name and whether it has multiple results.
    Primitives are the keys of the registry; the host gives each primitive
    a name of its own, and a primitive is known here by its name and its
    flag. *)
Record Primitive := mkPrim { prim_name : string; multiple_results : bool }.

Global Instance Primitive_eq_dec : EqDecision Primitive.
Proof. solve_decision. Defined.

Global Instance Primitive_countable : Countable Primitive :=
  inj_countable' (fun p => (prim_name p, multiple_results p))
                 (fun nm => mkPrim nm.1 nm.2)
                 (fun p => match p with mkPrim _ _ => eq_refl end).

(** What a rule or a primitive returns: one object or a sequence. *)
Inductive Out :=
| One (o : Obj)
| Many (os : list Obj).

(** A variable of a jaxpr, read from the environment by position, or a
    literal. *)
Inductive Atom :=
| Var (i : nat)
| Lit (o : Obj).

(** The keyword parameters of a bind.  [jaxpr] and [inline] are those of
    [pjit_p]; the others are kept by name. *)
Inductive Jaxpr :=
| mkJaxpr (eqns : list Eqn) (outvars : list Atom)
with Eqn :=
| mkEqn (primitive : Primitive) (invars : list Atom) (params : Params)
with Params :=
| mkParams (jaxpr : option Jaxpr) (inline : bool) (others : list (string * Z)).

Definition eqns (j : Jaxpr) := let 'mkJaxpr es _ := j in es.
Definition outvars (j : Jaxpr) := let 'mkJaxpr _ os := j in os.
Definition eqn_primitive (e : Eqn) := let 'mkEqn p _ _ := e in p.
Definition eqn_invars (e : Eqn) := let 'mkEqn _ i _ := e in i.
Definition eqn_params (e : Eqn) := let 'mkEqn _ _ ps := e in ps.
Definition jaxpr (ps : Params) := let 'mkParams j _ _ := ps in j.
Definition inline (ps : Params) := let 'mkParams _ i _ := ps in i.
Definition others (ps : Params) := let 'mkParams _ _ o := ps in o.

Definition pjit_p : Primitive := mkPrim "pjit" true.

(** ** The dispatch registry *)

(** Type annotations of a rule, which the dispatcher reads. *)
Inductive Annot :=
| ArrayLike_t
| Class_t (c : Class)
| Union_t (a b : Annot).

Record Signature := mkSig { positional : list Annot; varargs : option Annot }.

Global Instance Annot_eq_dec : EqDecision Annot.
Proof. solve_decision. Defined.
Global Instance Signature_eq_dec : EqDecision Signature.
Proof. solve_decision. Defined.

(** The body of a registered rule: the rule for [pjit_p] that the module
    registers when it is loaded, or a rule of client code. *)
Inductive MethodBody :=
| PjitRule
| ClientRule (f : list Obj -> Params -> M Out).

Record Method := mkMethod { signature : Signature; body : MethodBody }.

(** A [plum.Function]: its name and the methods registered so far. *)
Record Function := mkFunction { fn_name : string; methods : list Method }.

(** [plum.Dispatcher().abstract(existing_rule)] *)
Definition abstract (name : string) : Function := mkFunction name [].

(** The methods of a dispatcher once [rule] is registered with it.  This
    is plum's registration, which is not part of the module and is modelled
    after plum: a method whose signature is already registered takes the
    place of the registered one, and any other is added after the methods
    registered so far. *)
Fixpoint add_method (rule : Method) (ms : list Method) : list Method :=
  match ms with
  | [] => [rule]
  | m :: rest =>
      if decide (signature m = signature rule) then rule :: rest
      else m :: add_method rule rest
  end.

(** [existing_rule.dispatch(rule)] *)
Definition dispatch (f : Function) (rule : Method) : Function :=
  mkFunction (fn_name f) (add_method rule (methods f)).

(** [register(primitive)(rule)], on the registry [_rules], whose keys are
    the primitives themselves. *)
Definition register (primitive : Primitive) (rule : Method)
    (_rules : gmap Primitive Function) : gmap Primitive Function :=
  let existing_rule :=
    match _rules !! primitive with
    | Some existing_rule => existing_rule
    | None => abstract (prim_name primitive +:+ "_dispatcher")
    end in
  <[primitive := dispatch existing_rule rule]> _rules.

(** The outcomes of [rule.resolve_method(values)]: a method, or
    [plum.NotFoundLookupError], or another exception. *)
Inductive Resolution :=
| Found (method : MethodBody)
| NotFoundLookupError
| ResolveError (e : Exn).

(** The signature of the rule for [pjit_p]:
    [*args: Union[ArrayLike, ArrayValue]]. *)
Definition pjit_method : Method :=
  mkMethod (mkSig [] (Some (Union_t ArrayLike_t (Class_t ArrayValue_cls)))) PjitRule.

(** The registry once the module is loaded. *)
Definition loaded_rules : gmap Primitive Function := register pjit_p pjit_method ∅.

(** ** The host's trace stack *)

(** [with core.new_main(trace_type, dynamic=True) as main: body] *)
Definition new_main {A} (tt : TraceType) (body : MainTrace -> M A) : M A :=
  fun s =>
    let level := length (stack s) in
    let main := mkMain level tt in
    let prev_dynamic := dynamic s in
    let (r, s') := body main (mkState (stack s ++ [main]) main (cur_sublevel s)) in
    (r, mkState (removelast (stack s')) prev_dynamic (cur_sublevel s')).

(** [with jax.ensure_compile_time_eval(): body], the host's
    [new_base_main(EvalTrace)]: the base of the stack and the dynamic main
    trace are the evaluating trace while [body] runs. *)
Definition ensure_compile_time_eval {A} (body : M A) : M A :=
  fun s =>
    let prev_dynamic := dynamic s in
    let prev_base := stack s !! 0 in
    let (r, s') := body (mkState (<[0 := base_main]> (stack s)) base_main (cur_sublevel s)) in
    (r, mkState (match prev_base with
                 | Some b => <[0 := b]> (stack s')
                 | None => stack s'
                 end) prev_dynamic (cur_sublevel s')).

(** [main.with_cur_sublevel()] *)
Definition with_cur_sublevel (m : MainTrace) : M Trace :=
  fun s => (Ok (mkTrace m (cur_sublevel s)), s).

Definition tracer_level (x : Obj) : option nat :=
  match x with QTracer l _ _ => Some l | _ => None end.

(** The highest level among the tracers of [xs]. *)
Definition top_level (xs : list Obj) : option nat :=
  foldr (fun x acc =>
           match tracer_level x, acc with
           | Some l, Some l' => Some (Nat.max l l')
           | Some l, None => Some l
           | None, _ => acc
           end) None xs.

(** [core.find_top_trace(xs)] *)
Definition find_top_trace (xs : list Obj) : M Trace :=
  fun s =>
    let top_main :=
      match top_level xs with
      | Some l => if decide (l < main_level (dynamic s)) then dynamic s
                  else mkMain l QuaxTrace
      | None => dynamic s
      end in
    with_cur_sublevel top_main s.

(** [core.full_lower], with [_QuaxTracer.full_lower]. *)
Fixpoint full_lower (x : Obj) : Obj :=
  match x with
  | QTracer _ _ (DenseV array) => full_lower array
  | _ => x
  end.

(** The lowering of the results at the end of [bind]: each element of a
    sequence when the primitive has multiple results, the single result
    otherwise. *)
Definition lower_out (multiple : bool) (out : Out) : Out :=
  match multiple, out with
  | true, Many os => Many (full_lower <$> os)
  | false, One o => One (full_lower o)
  | _, _ => out
  end.

(** ** Tree flattening of the host *)

Inductive NodeDef :=
| LeafDef
| DenseDef
| CustomDef (cls : Class) (aux : list Z) (arity : nat).

Global Instance NodeDef_eq_dec : EqDecision NodeDef.
Proof. solve_decision. Defined.

Definition flatten_one (x : Obj) : list Obj * NodeDef :=
  match x with
  | DenseV array => ([array], DenseDef)
  | CustomV c aux fields => (fields, CustomDef c aux (length fields))
  | _ => ([x], LeafDef)
  end.

(** [jtu.tree_flatten(xs)] of a sequence of objects. *)
Fixpoint tree_flatten (xs : list Obj) : list Obj * list NodeDef :=
  match xs with
  | [] => ([], [])
  | x :: rest =>
      let (l, d) := flatten_one x in
      let (ls, ds) := tree_flatten rest in
      (l ++ ls, d :: ds)
  end.

(** [jtu.tree_unflatten(treedef, leaves)] *)
Fixpoint tree_unflatten (treedef : list NodeDef) (leaves : list Obj) : Result (list Obj) :=
  match treedef with
  | [] => match leaves with
          | [] => Ok []
          | _ => Err (ValueError "Too many leaves for PyTreeDef")
          end
  | d :: ds =>
      let n := match d with CustomDef _ _ n => n | _ => 1 end in
      if decide (length leaves < n) then Err (ValueError "Too few leaves for PyTreeDef")
      else
        let here := take n leaves in
        match tree_unflatten ds (drop n leaves) with
        | Err e => Err e
        | Ok rest =>
            match d, here with
            | LeafDef, [x] => Ok (x :: rest)
            | DenseDef, [x] => Ok (DenseV x :: rest)
            | CustomDef c aux _, _ => Ok (CustomV c aux here :: rest)
            | _, _ => Err (ValueError "Too few leaves for PyTreeDef")
            end
        end
  end.

(** ** Messages *)

Definition nl : string := String (Ascii.ascii_of_nat 10) EmptyString.

Fixpoint join (sep : string) (xs : list string) : string :=
  match xs with
  | [] => ""
  | [x] => x
  | x :: rest => x +:+ sep +:+ join sep rest
  end.

(** [{type(x) for x in values}], printed.  A set prints its elements in an
    order of its own; they are printed here in the order of their first
    occurrence among the operands. *)
Definition types_repr (values : list Obj) : string :=
  "{" +:+ join ", " (type_repr <$> remove_dups (type_of <$> values)) +:+ "}".

Definition multiple_defaults_msg (values : list Obj) : string :=
  "Multiple array-ish types " +:+ types_repr values +:+
  " are specifying default process rules.".

Definition boundary_advice : string :=
  ". These must be transformed by passing them across a `quax.quaxify` boundary before being used." +:+ nl +:+
  "For example, the following is incorrect, as `SomeValue()` is not explicitly passed across the API boundary:" +:+ nl +:+
  "```" +:+ nl +:+ "def f(x):" +:+ nl +:+ "    return x + SomeValue()" +:+ nl +:+ nl +:+
  "quax.quaxify(f)(AnotherValue())```" +:+ nl +:+
  "This should instead be written as the following:" +:+ nl +:+
  "explicitly passed across the API boundary:" +:+ nl +:+
  "```" +:+ nl +:+ "def f(x, y):" +:+ nl +:+ "    return x + y" +:+ nl +:+ nl +:+
  "quax.quaxify(f)(AnotherValue(), SomeValue())```" +:+ nl +:+
  "To better understand this, remember that the purpose of Quax is take a JAX program (given as a function) that acts on arrays, and to instead run it with array-ish types. But in the first example above, the original program already has an array-ish type, even before the `quaxify` is introduced.".

Definition boundary_msg (val : Obj) : string :=
  "Encountered Quax value of type " +:+ type_repr (type_of val) +:+ boundary_advice.

Definition not_jax_type_msg (val : Obj) : string :=
  type_repr (type_of val) +:+ " is not a JAX type.".

(** ** Values *)

(** The identity of the function that [type(x).default] returns: the one of
    [Value], or the one defined in the body of [definer]. *)
Inductive DefaultFn :=
| Value_default_fn
| Override (definer : Class).

Global Instance DefaultFn_eq_dec : EqDecision DefaultFn.
Proof. solve_decision. Defined.

(** [cls.default], looked up along the bases. *)
Fixpoint class_default (cls : Class) : DefaultFn :=
  match cls with
  | Value_cls => Value_default_fn
  | Sub _ true _ => Override cls
  | Sub _ false base => class_default base
  end.

Definition class_of (x : Obj) : Class :=
  match x with
  | CustomV c _ _ => c
  | DenseV _ => _DenseArrayValue_cls
  | _ => Value_cls
  end.

(** [defaults.add(x_default)] on a set kept as a list without repeats. *)
Definition set_add (d : DefaultFn) (defaults : list DefaultFn) : list DefaultFn :=
  if decide (d ∈ defaults) then defaults else defaults ++ [d].

(** The loop of [_default_process] that collects the overrides. *)
Fixpoint collect_defaults (values : list Obj) (defaults : list DefaultFn)
    : Result (list DefaultFn) :=
  match values with
  | [] => Ok defaults
  | x :: rest =>
      if _is_value x then
        let x_default := class_default (class_of x) in
        if decide (x_default = Value_default_fn) then collect_defaults rest defaults
        else collect_defaults rest (set_add x_default defaults)
      else if is_array_like x then collect_defaults rest defaults
      else Err AssertionError
  end.

(** [_wrap_if_array] *)
Definition _wrap_if_array (x : Obj) : Obj :=
  if is_array_like x then DenseV x else x.

(** [_QuaxTracer(trace, value)], with the assertion of [__init__]. *)
Definition _QuaxTracer (trace : Trace) (value : Obj) : M Obj :=
  if _is_value value
  then ret (QTracer (main_level (main trace)) (sublevel trace) value)
  else raise AssertionError.

(** [t.value] *)
Definition tracer_value (t : Obj) : M Obj :=
  match t with
  | QTracer _ _ v => ret v
  | _ => raise AttributeError
  end.

(** [_QuaxTrace.pure] *)
Definition pure (self : Trace) (val : Obj) : M Obj :=
  if _is_value val then raise (TypeError (boundary_msg val))
  else if negb (is_array_like val) then raise (TypeError (not_jax_type_msg val))
  else _QuaxTracer self (DenseV val).

(** [_QuaxTrace.lift] *)
Definition lift (self : Trace) (tracer : Obj) : M Obj :=
  _QuaxTracer self (DenseV tracer).

(** [_QuaxTrace.sublift] *)
Definition sublift (self : Trace) (tracer : Obj) : M Obj := ret tracer.

(** [core.Trace.full_raise], for a [_QuaxTrace].  The host compares the
    main trace of a tracer with the main trace of [self] by identity; a
    tracer is kept here with the level of its main trace, and the stack
    holds one main trace per level, so a tracer of the level of [self] is
    taken as one of its main trace.  A tracer that has outlived its call
    and meets a later main trace of the same level, for which the host
    raises its tracer error, is not told apart from a tracer of that later
    main trace. *)
Definition full_raise (self : Trace) (val : Obj) : M Obj :=
  match val with
  | QTracer l sl _ =>
      if decide (l = main_level (main self)) then
        if decide (sl = sublevel self) then ret val
        else if decide (sl < sublevel self) then sublift self val
        else raise UnexpectedTracerError
      else if decide (l < main_level (main self)) then
        if decide (sublevel self < sl) then raise UnexpectedTracerError
        else lift self val
      else raise UnexpectedTracerError
  | _ => pure self val
  end.

(** [_wrap_tracer] *)
Definition _wrap_tracer (trace : Trace) (x : Obj) : M Obj :=
  if _is_value x then _QuaxTracer trace x else ret x.

(** [_unwrap_tracer] *)
Definition _unwrap_tracer (trace : Trace) (x : Obj) : M Obj :=
  let* x := (if is_array_like x then full_raise trace x else ret x) in
  match x with
  | QTracer _ _ value =>
      match value with
      | DenseV array => ret array
      | _ => ret value
      end
  | _ => ret x
  end.

(** [jtu.tree_map(f, x)] on one object: [f] on each of its leaves. *)
Definition tree_map (f : Obj -> M Obj) (x : Obj) : M Obj :=
  match x with
  | DenseV array => let* a := f array in ret (DenseV a)
  | CustomV c aux fields => let* fs := for_each f fields in ret (CustomV c aux fs)
  | _ => f x
  end.

Definition tree_map_out (f : Obj -> M Obj) (out : Out) : M Out :=
  match out with
  | One o => let* o' := tree_map f o in ret (One o')
  | Many os => let* os' := for_each (tree_map f) os in ret (Many os')
  end.

(** [_Quaxify.__call__], for the wrapped function [fn]. *)
Definition _Quaxify_call (fn : list Obj -> M Out) (args : list Obj) : M Out :=
  new_main QuaxTrace (fun main =>
    let* sl := (fun s => (Ok (cur_sublevel s), s)) in
    let trace := mkTrace main sl in
    let* args := for_each (_wrap_tracer trace) args in
    let* out := fn args in
    let* out := tree_map_out (_unwrap_tracer trace) out in
    ret out).

(** ** Iteration of the host's objects *)

(** The rows of [data] along the leading axis: [n] rows of [size] elements. *)
Fixpoint rows_of (n size : nat) (data : list Z) : list (list Z) :=
  match n with
  | 0 => []
  | S n' => take size data :: rows_of n' size (drop size data)
  end.

(** [iter(a)] for an array: its rows along the leading axis, each an array
    of the same kind with the remaining axes.  The host slices an array of
    its own by a compiled call, which is taken here by the rows it
    returns.  A Python scalar and an array without axes are not
    iterable. *)
Definition array_rows (a : Array) : Result (list Obj) :=
  match arr_kind a with
  | PyScalar => Err (TypeError "'float' object is not iterable")
  | k =>
      match shape (arr_aval a) with
      | [] => Err (TypeError "iteration over a 0-d array")
      | n :: rest =>
          Ok ((fun row => Arr (mkArray k (mkAval rest (dtype (arr_aval a))) row))
                <$> rows_of n (foldr Nat.mul 1 rest) (arr_data a))
      end
  end.

(** The host's primitives behind [lax.index_in_dim]. *)
Definition slice_p : Primitive := mkPrim "slice" false.
Definition squeeze_p : Primitive := mkPrim "squeeze" false.

(** The parameters of the slice that keeps row [i] of the leading axis, the
    other axes taken whole, and of the squeeze of the leading axis. *)
Definition slice_params (i : nat) : Params :=
  mkParams None false
    [("start_indices", Z.of_nat i); ("limit_indices", Z.of_nat (S i)); ("strides", 1%Z)].
Definition squeeze_params : Params := mkParams None false [("dimensions", 0%Z)].

(** ** The interpreter *)

Section Quax.

(** Client code and the host framework: [materialise] and [aval] of each
    class of custom values; the override of [default] in the body of each
    class that defines one; the built-in implementation [primitive.impl]; the
    dispatcher's [resolve_method]; the host's compilation entry point
    [jax.jit(f)(x)]; the registry [_rules] as it is once registration is
    over. *)
Variable materialise_custom : Class -> list Z -> list Obj -> M Obj.
Variable aval_custom : Class -> list Z -> list Obj -> Result Aval.
Variable default_override : Class -> Primitive -> list Obj -> Params -> M Out.
Variable impl : Primitive -> list Obj -> Params -> Result Out.
Variable resolve_method : Function -> list Obj -> Resolution.
Variable jit : (list Obj -> M Out) -> list Obj -> M Out.
Variable _rules : gmap Primitive Function.

Section Interpreter.

(** The host's [primitive.bind], which comes back to the interpreter. *)
Variable bind : Primitive -> list Obj -> Params -> M Out.

(** [x.materialise()] *)
Definition materialise (x : Obj) : M Obj :=
  match x with
  | DenseV array => ret array
  | CustomV c aux fields => materialise_custom c aux fields
  | _ => raise AttributeError
  end.

(** [Value.default] *)
Definition Value_default (primitive : Primitive) (values : list Obj) (params : Params)
    : M Out :=
  let* arrays := for_each (fun x => if is_array_like x then ret x else materialise x) values in
  bind primitive arrays params.

Definition call_default (default : DefaultFn) : Primitive -> list Obj -> Params -> M Out :=
  match default with
  | Value_default_fn => Value_default
  | Override c => default_override c
  end.

(** [_default_process] *)
Definition _default_process (primitive : Primitive) (values : list Obj) (params : Params)
    : M Out :=
  let* defaults := lift_result (collect_defaults values []) in
  let* default :=
    match defaults with
    | [] => ret Value_default_fn
    | [default] => ret default
    | _ => raise (TypeError (multiple_defaults_msg values))
    end in
  ensure_compile_time_eval (call_default default primitive values params).

(** Reading an atom of a jaxpr in the environment. *)
Definition read (env : list Obj) (a : Atom) : M Obj :=
  match a with
  | Var i => match env !! i with
             | Some o => ret o
             | None => raise (Raised "KeyError")
             end
  | Lit o => ret o
  end.

Definition out_list (out : Out) : list Obj :=
  match out with
  | One o => [o]
  | Many os => os
  end.

Fixpoint eval_eqns (es : list Eqn) (env : list Obj) : M (list Obj) :=
  match es with
  | [] => ret env
  | e :: rest =>
      let* invals := for_each (read env) (eqn_invars e) in
      let* ans := bind (eqn_primitive e) invals (eqn_params e) in
      eval_eqns rest (env ++ out_list ans)
  end.

(** [core.jaxpr_as_fun(jaxpr)]: the equations in order, each a bind. *)
Definition jaxpr_as_fun (j : Jaxpr) (args : list Obj) : M Out :=
  let* env := eval_eqns (eqns j) args in
  let* outs := for_each (read env) (outvars j) in
  ret (Many outs).

(** The rule registered for [pjit_p]. *)
Definition pjit_rule (args : list Obj) (params : Params) : M Out :=
  match jaxpr params with
  | None => raise (TypeError "missing 1 required keyword-only argument: 'jaxpr'")
  | Some j =>
      let fun_ := _Quaxify_call (jaxpr_as_fun j) in
      if inline params then fun_ args
      else
        let (leaves, treedef) := tree_flatten args in
        let flat_fun := fun x =>
          let* xs := lift_result (tree_unflatten treedef x) in fun_ xs in
        ensure_compile_time_eval (jit flat_fun leaves)
  end.

(** Calling the resolved method on the values and the parameters. *)
Definition call_method (method : MethodBody) (values : list Obj) (params : Params) : M Out :=
  match method with
  | PjitRule => pjit_rule values params
  | ClientRule f => f values params
  end.

(** The first statement of [process_primitive]: the payloads, with
    [_DenseArrayValue] taken off. *)
Definition unwrap_dense (x : Obj) : Obj :=
  match x with
  | DenseV array => array
  | _ => x
  end.

(** The part of [process_primitive] that computes [out]. *)
Definition dispatch_primitive (primitive : Primitive) (values : list Obj) (params : Params)
    : M Out :=
  match _rules !! primitive with
  | None => _default_process primitive values params
  | Some rule =>
      match resolve_method rule values with
      | NotFoundLookupError => _default_process primitive values params
      | ResolveError e => raise e
      | Found method => call_method method values params
      end
  end.

(** The abstract value of an object: the host's [core.get_aval] for an
    array, [value.aval()] for a [_DenseArrayValue] and for a custom value,
    and [_QuaxTracer.aval], that of its payload, for a tracer. *)
Fixpoint aval_of (x : Obj) : Result Aval :=
  match x with
  | Arr a => Ok (arr_aval a)
  | DenseV array => aval_of array
  | CustomV c aux fields => aval_custom c aux fields
  | QTracer _ _ value => aval_of value
  | _ => Err (TypeError (type_repr (type_of x) +:+ " is not a valid JAX type"))
  end.

(** [_QuaxTracer(self, _wrap_if_array(out))] for what a rule or a bind
    returned; a sequence is not a [Value] and fails the assertion of
    [_QuaxTracer]. *)
Definition wrap_result (self : Trace) (out : Out) : M Obj :=
  match out with
  | One o => _QuaxTracer self (_wrap_if_array o)
  | Many _ => raise AssertionError
  end.

(** [lax.index_in_dim(x, i, keepdims=False)] of the host, with which it
    iterates a tracer: a bind of the slice and a bind of the squeeze, both
    back through the interpreter. *)
Definition index_in_dim (x : Obj) (i : nat) : M Out :=
  let* row := bind slice_p [x] (slice_params i) in
  match row with
  | One row => bind squeeze_p [row] squeeze_params
  | Many _ => raise (TypeError "<class 'list'> is not a valid JAX type")
  end.

(** The comprehension [[_QuaxTracer(self, _wrap_if_array(x)) for x in out]].
    A sequence yields its elements.  An array yields its rows.  A tracer
    yields, for each index of its leading axis in turn, what the host's
    [index_in_dim] returns.  A [Value] is not iterable, none of the classes
    of the module defining an iteration. *)
Definition wrap_each (self : Trace) (out : Out) : M (list Obj) :=
  match out with
  | Many os => for_each (fun x => _QuaxTracer self (_wrap_if_array x)) os
  | One (Arr a) =>
      let* rows := lift_result (array_rows a) in
      for_each (fun x => _QuaxTracer self (_wrap_if_array x)) rows
  | One (QTracer l sl value) =>
      let* aval := lift_result (aval_of value) in
      match shape aval with
      | [] => raise (TypeError "iteration over a 0-d array")
      | n :: _ =>
          for_each (fun i => let* x := index_in_dim (QTracer l sl value) i in
                             wrap_result self x) (seq 0 n)
      end
  | One _ => raise (TypeError "object is not iterable")
  end.

(** The last statement of [process_primitive]: the results as tracers. *)
Definition wrap_results (self : Trace) (primitive : Primitive) (out : Out) : M Out :=
  if multiple_results primitive then
    let* ts := wrap_each self out in ret (Many ts)
  else
    let* t := wrap_result self out in ret (One t).

(** [_QuaxTrace.process_primitive] *)
Definition process_primitive (self : Trace) (primitive : Primitive) (tracers : list Obj)
    (params : Params) : M Out :=
  let* values := for_each tracer_value tracers in
  let values := unwrap_dense <$> values in
  let* out := dispatch_primitive primitive values params in
  wrap_results self primitive out.

End Interpreter.

(** [Primitive.bind] of the host: the operands are raised to the top
    trace, that trace processes the primitive, and the results are
    lowered.  [fuel] bounds the depth of the interpreter's calls to itself,
    as Python's recursion limit does. *)
Fixpoint bind (fuel : nat) (primitive : Primitive) (args : list Obj) (params : Params)
    : M Out :=
  match fuel with
  | 0 => raise RecursionError
  | S fuel' =>
      let* trace := find_top_trace args in
      let* out :=
        match trace_type (main trace) with
        | EvalTrace => lift_result (impl primitive args params)
        | QuaxTrace =>
            let* tracers := for_each (full_raise trace) args in
            process_primitive (bind fuel') trace primitive tracers params
        end in
      ret (lower_out (multiple_results primitive) out)
  end.

(** [quaxify(fn)] called on [args], for a function [fn] given as a jaxpr. *)
Definition quaxify (fuel : nat) (fn : Jaxpr) (args : list Obj) : M Out :=
  _Quaxify_call (jaxpr_as_fun (bind fuel) fn) args.

(** ** The custom-derivative bridge *)

Section CustomJvp.

(** [jnp.zeros(shape, dtype)] of the host; its binds go through the
    interpreter, so it can raise and can return a tracer. *)
Variable jnp_zeros : Aval -> M Obj.

(** The loop over the pairs of primal and tangent outputs. *)
Fixpoint reconcile (pairs : list (Obj * Obj)) : M (list (Obj * Obj)) :=
  match pairs with
  | [] => ret []
  | (primal, tangent) :: rest =>
      let* pt :=
        (if decide (type_of primal <> type_of tangent) then
           let* primal := materialise primal in
           let* tangent := materialise tangent in
           ret (primal, tangent)
         else ret (primal, tangent)) in
      let* rest := reconcile rest in
      ret (pt :: rest)
  end.

Definition mismatch_msg : string :=
  "Primals and tangents had the same class, but different flattened results.".

(** [_custom_jvp_jvp_wrap] from the point where the wrapped derivative
    function has returned [out_tracers]. *)
Definition jvp_wrap_outputs (trace : Trace) (out_tracers : list Obj)
    : M (list Obj * list NodeDef) :=
  let* out_tracers :=
    for_each (fun t => match t with
                       | SymZero aval => jnp_zeros aval
                       | _ => ret t
                       end) out_tracers in
  let* out_values :=
    for_each (fun t => let* t := full_raise trace t in tracer_value t) out_tracers in
  let out_primal_values := take (length out_values / 2) out_values in
  let out_tangent_values := drop (length out_values / 2) out_values in
  if decide (length out_primal_values <> length out_tangent_values)
  then raise AssertionError
  else
    let* pairs := reconcile (zip out_primal_values out_tangent_values) in
    let out_primal_values2 := fst <$> pairs in
    let out_tangent_values2 := snd <$> pairs in
    let (out_primals, out_primal_treedef) := tree_flatten out_primal_values2 in
    let (out_tangents, out_tangent_treedef) := tree_flatten out_tangent_values2 in
    if decide (out_primal_treedef <> out_tangent_treedef)
    then raise (ValueError mismatch_msg)
    else ret (out_primals ++ out_tangents, out_primal_treedef).

(** [_custom_jvp_jvp_wrap], for the derivative function [jvp]. *)
Definition _custom_jvp_jvp_wrap (jvp : list Obj -> M (list Obj)) (main : MainTrace)
    (in_treedef : list NodeDef) (in_primals_and_tangents : list Obj)
    : M (list Obj * list NodeDef) :=
  let* trace := with_cur_sublevel main in
  let in_primals := take (length in_primals_and_tangents / 2) in_primals_and_tangents in
  let in_tangents := drop (length in_primals_and_tangents / 2) in_primals_and_tangents in
  let* in_primal_values := lift_result (tree_unflatten in_treedef in_primals) in
  let* in_tangent_values := lift_result (tree_unflatten in_treedef in_tangents) in
  let* in_tracers := for_each (_QuaxTracer trace) (in_primal_values ++ in_tangent_values) in
  let* out_tracers := jvp in_tracers in
  jvp_wrap_outputs trace out_tracers.

End CustomJvp.

End Quax.

(** ** Custom-derivative calls *)

(** [with core.new_sublevel(): body]: the host pushes the next sublevel
    while [body] runs. *)
Definition new_sublevel {A} (body : M A) : M A :=
  fun s =>
    let (r, s') := body (mkState (stack s) (dynamic s) (S (cur_sublevel s))) in
    (r, mkState (stack s') (dynamic s') (cur_sublevel s)).

Section CustomJvpCall.

Variable materialise_custom : Class -> list Z -> list Obj -> M Obj.
Variable jnp_zeros : Aval -> M Obj.

(** The host's bind of the custom-derivative primitive, on the two wrapped
    functions, the leaves and the flag; it returns the leaves of the
    outputs and the descriptor that the wrapper it ran has stored. *)
Variable custom_jvp_bind :
  (list Obj -> M (list Obj * list NodeDef)) ->
  (list Obj -> M (list Obj * list NodeDef)) ->
  list Obj -> bool -> M (list Obj * list NodeDef).

(** [_custom_jvp_fun_wrap], for the forward function [fun_]. *)
Definition _custom_jvp_fun_wrap (fun_ : list Obj -> M (list Obj)) (main : MainTrace)
    (in_treedef : list NodeDef) (in_leaves : list Obj) : M (list Obj * list NodeDef) :=
  let* trace := with_cur_sublevel main in
  let* in_values := lift_result (tree_unflatten in_treedef in_leaves) in
  let* in_tracers :=
    for_each (fun x => match x with
                       | SymZero _ => ret x
                       | _ => _QuaxTracer trace x
                       end) in_values in
  let* out_tracers := fun_ in_tracers in
  let* out_tracers :=
    for_each (fun t => match t with
                       | SymZero aval => jnp_zeros aval
                       | _ => ret t
                       end) out_tracers in
  let* out_values :=
    for_each (fun t => let* t := full_raise trace t in tracer_value t) out_tracers in
  ret (tree_flatten out_values).

(** [_QuaxTrace.process_custom_jvp_call] *)
Definition process_custom_jvp_call (self : Trace) (fun_ jvp : list Obj -> M (list Obj))
    (tracers : list Obj) (symbolic_zeros : bool) : M (list Obj) :=
  let* in_values := for_each tracer_value tracers in
  let (in_leaves, in_treedef) := tree_flatten in_values in
  let fun' := _custom_jvp_fun_wrap fun_ (main self) in_treedef in
  let jvp' := _custom_jvp_jvp_wrap materialise_custom jnp_zeros jvp (main self) in_treedef in
  let* out := ensure_compile_time_eval (custom_jvp_bind fun' jvp' in_leaves symbolic_zeros) in
  let (out_leaves, out_treedef) := out in
  let* out_values := lift_result (tree_unflatten out_treedef out_leaves) in
  for_each (_QuaxTracer self) out_values.

End CustomJvpCall.

(** The host's bind of the custom-derivative primitive under the
    evaluating trace: the forward function runs in a new sublevel, and the
    derivative function is not called. *)
Definition eval_custom_jvp_bind
    (fun_ jvp : list Obj -> M (list Obj * list NodeDef))
    (in_leaves : list Obj) (symbolic_zeros : bool) : M (list Obj * list NodeDef) :=
  new_sublevel (fun_ in_leaves).

(** ** Notions used by the statements *)

(** A computation that leaves the trace state as it found it, whatever its
    outcome. *)
Definition preserves_state {A} (m : M A) : Prop :=
  forall s, (m s).2 = s.

(** The registry after the registrations [regs], made in this order on the
    registry [_rules], and on an empty registry. *)
Definition registered_on (_rules : gmap Primitive Function)
    (regs : list (Primitive * Method)) : gmap Primitive Function :=
  foldl (fun _rules reg => register reg.1 reg.2 _rules) _rules regs.

Definition registered (regs : list (Primitive * Method)) : gmap Primitive Function :=
  registered_on ∅ regs.

(** [sub] occurs in [msg]. *)
Definition contains (msg sub : string) : Prop :=
  exists pre post, msg = pre +:+ sub +:+ post.

(** The overrides of [default] that the operands of a bind expose: for each
    operand that is a [Value], the [default] of its class when that is not
    the one of [Value].  Plain arrays expose none. *)
Definition overrides (values : list Obj) : list DefaultFn :=
  filter (fun d => d <> Value_default_fn)
         ((fun x => class_default (class_of x)) <$> filter (fun x => _is_value x = true) values).

(** Operands that [process_primitive] hands over: values or array-likes. *)
Definition operand (x : Obj) : Prop := _is_value x = true \/ is_array_like x = true.

(** The tracer of [trace] over [v]. *)
Definition tracer_of (trace : Trace) (v : Obj) : Obj :=
  QTracer (main_level (main trace)) (sublevel trace) v.


(** The trace state inside [ensure_compile_time_eval], entered from [s]. *)
Definition eval_state (s : TraceState) : TraceState :=
  mkState (<[0 := base_main]> (stack s)) base_main (cur_sublevel s).

(** The outcome of the built-in implementation, lowered as [bind] does. *)
Definition builtin (impl : Primitive -> list Obj -> Params -> Result Out)
    (primitive : Primitive) (arrays : list Obj) (params : Params) : Result Out :=
  match impl primitive arrays params with
  | Ok out => Ok (lower_out (multiple_results primitive) out)
  | Err e => Err e
  end.

(** The trace state in which the wrapped function runs when [quaxify] is
    entered from [s], and the trace of that call. *)
Definition entry_main (s : TraceState) : MainTrace := mkMain (length (stack s)) QuaxTrace.

Definition entered (s : TraceState) : TraceState :=
  mkState (stack s ++ [entry_main s]) (entry_main s) (cur_sublevel s).

Definition entry_trace (s : TraceState) : Trace := mkTrace (entry_main s) (cur_sublevel s).

(** The arguments as the wrapped function receives them. *)
Definition wrapped (trace : Trace) (x : Obj) : Obj :=
  if _is_value x then tracer_of trace x else x.

(** A plain array, as opposed to a custom value or a tracer. *)
Definition is_plain (x : Obj) : bool :=
  match x with Arr _ => true | _ => false end.

Definition plain_atom (a : Atom) : bool :=
  match a with
  | Var _ => true
  | Lit o => is_plain o
  end.

(** A function on arrays only: no literal of its jaxpr is anything but a
    plain array. *)
Definition plain_jaxpr (j : Jaxpr) : Prop :=
  Forall (fun e => forallb plain_atom (eqn_invars e) = true) (eqns j)
  /\ forallb plain_atom (outvars j) = true.

(** No rule of the registry is resolved for [primitive] on plain arrays. *)
Definition unresolved_on_arrays (resolve_method : Function -> list Obj -> Resolution)
    (_rules : gmap Primitive Function) (primitive : Primitive) : Prop :=
  forall values, forallb is_plain values = true ->
    match _rules !! primitive with
    | None => True
    | Some rule => resolve_method rule values = NotFoundLookupError
    end.

(** The built-in implementation returns plain arrays on plain arrays, one
    or a sequence as the primitive declares. *)
Definition returns_arrays (impl : Primitive -> list Obj -> Params -> Result Out) : Prop :=
  forall p xs ps out, forallb is_plain xs = true -> impl p xs ps = Ok out ->
    if multiple_results p
    then exists os, out = Many os /\ forallb is_plain os = true
    else exists o, out = One o /\ is_plain o = true.

(** A pair of outputs after the reconciliation of the custom-derivative
    bridge, when [materialise] returns [mat]. *)
Definition reconciled (mat : Obj -> Obj) (pt : Obj * Obj) : Obj * Obj :=
  if decide (type_of pt.1 <> type_of pt.2) then (mat pt.1, mat pt.2) else pt.

(** An operand of a bind as the rule or the fallback receives it: the
    payload of a tracer, taken out of its [_DenseArrayValue] if it is in
    one, and anything else as it is. *)
Definition operand_seen (x : Obj) : Obj :=
  match x with
  | QTracer _ _ v => unwrap_dense v
  | _ => x
  end.

(** The number of leaves that a descriptor stands for. *)
Fixpoint leaf_count (treedef : list NodeDef) : nat :=
  match treedef with
  | [] => 0
  | CustomDef _ _ n :: ds => n + leaf_count ds
  | _ :: ds => 1 + leaf_count ds
  end.

(** ** A small client *)

(** Classes, primitives, rules and a host on which the statements below are
    run: two classes [A] and [B] whose bodies define [default], two classes
    [PA] and [PB] that inherit the [default] defined by [P], and a class
    [V] that defines none. *)
Module Example.

Definition A : Class := Sub "A" true ArrayValue_cls.
Definition B : Class := Sub "B" true ArrayValue_cls.
Definition P : Class := Sub "P" true ArrayValue_cls.
Definition PA : Class := Sub "PA" false P.
Definition PB : Class := Sub "PB" false P.
Definition V : Class := Sub "V" false ArrayValue_cls.

Definition arr (data : list Z) : Obj :=
  Arr (mkArray JaxArray (mkAval [length data] "float32") data).

Definition add_p : Primitive := mkPrim "add" false.
Definition mul_p : Primitive := mkPrim "mul" false.
Definition neg_p : Primitive := mkPrim "neg" false.
Definition split_p : Primitive := mkPrim "split" true.

Definition no_params : Params := mkParams None false [].

(** Every class materialises to its first field. *)
Definition materialise_custom (c : Class) (aux : list Z) (fields : list Obj) : M Obj :=
  match fields with
  | f :: _ => ret f
  | [] => raise (Raised "unsupported")
  end.

(** The abstract value of every class is that of its first field. *)
Definition aval_custom (c : Class) (aux : list Z) (fields : list Obj) : Result Aval :=
  match fields with
  | Arr a :: _ => Ok (arr_aval a)
  | _ => Err (Raised "unsupported")
  end.

(** The override of [default] in the body of [c] returns an instance of [c]. *)
Definition default_override (c : Class) (p : Primitive) (values : list Obj)
    (params : Params) : M Out :=
  ret (if multiple_results p then Many [CustomV c [] []] else One (CustomV c [] [])).

(** The parameter [key] of a bind. *)
Definition param (key : string) (params : Params) : Z :=
  default 0%Z (snd <$> head (filter (fun kv => kv.1 = key) (others params))).

(** The slice of [x] that keeps one row of its leading axis, and the array
    [x] without its leading axis. *)
Definition slice_row (x : Array) (start : nat) : Obj :=
  let rest := tail (shape (arr_aval x)) in
  let size := foldr Nat.mul 1 rest in
  Arr (mkArray JaxArray (mkAval (1 :: rest) (dtype (arr_aval x)))
         (take size (drop (start * size) (arr_data x)))).

Definition squeeze_leading (x : Array) : Obj :=
  Arr (mkArray JaxArray (mkAval (tail (shape (arr_aval x))) (dtype (arr_aval x)))
         (arr_data x)).

Definition impl (p : Primitive) (args : list Obj) (params : Params) : Result Out :=
  match args with
  | [Arr x; Arr y] =>
      if decide (p = add_p)
      then Ok (One (arr (zip_with Z.add (arr_data x) (arr_data y))))
      else if decide (p = mul_p)
      then Ok (One (arr (zip_with Z.mul (arr_data x) (arr_data y))))
      else Err (TypeError "unsupported operands")
  | [Arr x] =>
      if decide (p = neg_p)
      then Ok (One (arr (Z.opp <$> arr_data x)))
      else if decide (p = split_p)
      then Ok (Many [arr (take 1 (arr_data x)); arr (drop 1 (arr_data x))])
      else if decide (p = slice_p)
      then Ok (One (slice_row x (Z.to_nat (param "start_indices" params))))
      else if decide (p = squeeze_p)
      then Ok (One (squeeze_leading x))
      else Err (TypeError "unsupported operands")
  | _ => Err (TypeError "unsupported operands")
  end.

Fixpoint subclass (c d : Class) : bool :=
  if decide (c = d) then true
  else match c with
       | Value_cls => false
       | Sub _ _ base => subclass base d
       end.

Fixpoint isinstance (x : Obj) (a : Annot) : bool :=
  match a with
  | ArrayLike_t => match x with Arr _ => true | _ => false end
  | Class_t c => _is_value x && subclass (class_of x) c
  | Union_t a b => isinstance x a || isinstance x b
  end.

Fixpoint matches (pos : list Annot) (var : option Annot) (values : list Obj) : bool :=
  match pos, values with
  | a :: pos, x :: values => isinstance x a && matches pos var values
  | [], [] => true
  | [], x :: values =>
      match var with
      | Some a => isinstance x a && matches [] var values
      | None => false
      end
  | _ :: _, [] => false
  end.

(** A dispatcher that takes the first method whose annotations fit. *)
Definition resolve_method (f : Function) (values : list Obj) : Resolution :=
  match filter (fun m => matches (positional (signature m)) (varargs (signature m)) values = true)
               (methods f) with
  | m :: _ => Found (body m)
  | [] => NotFoundLookupError
  end.

(** A compiler that runs the function as it is. *)
Definition jit (f : list Obj -> M Out) (x : list Obj) : M Out := f x.




(** A rule for [add_p] on two instances of [A]. *)
Definition add_A_A (values : list Obj) (params : Params) : M Out :=
  ret (One (CustomV A [7%Z] [])).

Definition _rules : gmap Primitive Function :=
  register add_p (mkMethod (mkSig [Class_t A; Class_t A] None) (ClientRule add_A_A))
           loaded_rules.

(** A rule for [mul_p] whose annotations accept plain arrays. *)
Definition mul_dense (values : list Obj) (params : Params) : M Out :=
  ret (One (default (arr []) (head values))).

(** A rule for [split_p] that returns its operand, one array, where the
    primitive has several results. *)
Definition split_whole (values : list Obj) (params : Params) : M Out :=
  ret (One (default (arr []) (head values))).

Definition whole_rules : gmap Primitive Function :=
  register split_p (mkMethod (mkSig [ArrayLike_t] None) (ClientRule split_whole))
           loaded_rules.

Definition dense_rules : gmap Primitive Function :=
  register mul_p (mkMethod (mkSig [ArrayLike_t; ArrayLike_t] None) (ClientRule mul_dense))
           loaded_rules.

(** A rule for [mul_p] on an instance of [A] and an array, which keeps the
    operands and the parameters it is called with. *)
Definition mul_A_array (values : list Obj) (params : Params) : M Out :=
  ret (One (CustomV A (snd <$> others params) values)).

Definition scaled_rules : gmap Primitive Function :=
  register mul_p (mkMethod (mkSig [Class_t A; ArrayLike_t] None) (ClientRule mul_A_array))
           loaded_rules.

Definition trace1 : Trace := mkTrace (mkMain 1 QuaxTrace) 0.
Definition state1 : TraceState := mkState [base_main; mkMain 1 QuaxTrace] (mkMain 1 QuaxTrace) 0.

Definition ebind (fuel : nat) : Primitive -> list Obj -> Params -> M Out :=
  bind materialise_custom aval_custom default_override impl resolve_method jit _rules fuel.

Definition a1 : Obj := CustomV A [] [arr [1%Z]].
Definition a2 : Obj := CustomV A [] [arr [2%Z]].
Definition b1 : Obj := CustomV B [] [arr [3%Z]].
Definition v1 : Obj := CustomV V [] [arr [1%Z]].
Definition pa1 : Obj := CustomV PA [] [arr [4%Z]].
Definition pb1 : Obj := CustomV PB [] [arr [5%Z]].

(** [lambda x: add_p.bind(x, A(...))], which builds a custom value in its body. *)
Definition add_constant : Jaxpr :=
  mkJaxpr [mkEqn add_p [Var 0; Lit a1] no_params] [Var 1].

(** [lambda x, y: neg_p.bind(add_p.bind(x, y))] *)
Definition neg_add : Jaxpr :=
  mkJaxpr [mkEqn add_p [Var 0; Var 1] no_params; mkEqn neg_p [Var 2] no_params] [Var 3].

(** The jaxpr of [lambda x, y: add_p.bind(x, y)]. *)
Definition add_jaxpr : Jaxpr :=
  mkJaxpr [mkEqn add_p [Var 0; Var 1] no_params] [Var 2].

(** [lambda x: mul_p.bind(x, x)] *)
Definition square : Jaxpr :=
  mkJaxpr [mkEqn mul_p [Var 0; Var 0] no_params] [Var 1].


(** [jnp.zeros] giving a plain array of the host. *)
Definition jnp_zeros (aval : Aval) : M Obj :=
  ret (Arr (mkArray JaxArray aval (replicate (foldr Nat.mul 1 (shape aval)) 0%Z))).

Definition f32 (n : nat) : Aval := mkAval [n] "float32".

(** An instance of [V] over NumPy data, which is what it materialises to. *)
Definition numpy_data : Obj := Arr (mkArray NumpyArray (f32 2) [1%Z; 2%Z]).
Definition v_numpy : Obj := CustomV V [] [numpy_data].
Definition zeros2 : Obj := Arr (mkArray JaxArray (f32 2) [0%Z; 0%Z]).

(** What [materialise] returns in this client. *)
Definition mat (x : Obj) : Obj :=
  match x with
  | DenseV array => array
  | CustomV _ _ (f :: _) => f
  | _ => x
  end.

End Example.

(** * Properties *)

(** ** The monad *)

Lemma bindM_ok {A B} (m : M A) (k : A -> M B) s a s' :
  m s = (Ok a, s') -> bindM m k s = k a s'.
Proof. intros H. unfold bindM. by rewrite H. Qed.

Lemma bindM_err {A B} (m : M A) (k : A -> M B) s e s' :
  m s = (Err e, s') -> bindM m k s = (Err e, s').
Proof. intros H. unfold bindM. by rewrite H. Qed.

Lemma for_each_ok {A B} (f : A -> M B) (g : A -> B) (xs : list A) s :
  (forall x, x ∈ xs -> f x s = (Ok (g x), s)) ->
  for_each f xs s = (Ok (g <$> xs), s).
Proof.
  induction xs as [|x xs IH]; intros H; simpl; [done|].
  rewrite (bindM_ok _ _ s (g x) s); [|apply H; left].
  rewrite (bindM_ok _ _ s (g <$> xs) s); [done|].
  apply IH. intros y Hy. apply H. by right.
Qed.

Lemma preserves_ret {A} (a : A) : preserves_state (ret a).
Proof. done. Qed.

Lemma preserves_raise {A} e : preserves_state (@raise A e).
Proof. done. Qed.

Lemma preserves_lift_result {A} (r : Result A) : preserves_state (lift_result r).
Proof. done. Qed.

Lemma preserves_bindM {A B} (m : M A) (k : A -> M B) :
  preserves_state m -> (forall a, preserves_state (k a)) -> preserves_state (bindM m k).
Proof.
  intros Hm Hk s. unfold bindM. specialize (Hm s).
  destruct (m s) as [[a|e] s'] eqn:E; simpl in *; subst; [apply Hk | done].
Qed.

Lemma preserves_for_each {A B} (f : A -> M B) xs :
  (forall x, preserves_state (f x)) -> preserves_state (for_each f xs).
Proof.
  intros Hf. induction xs as [|x xs IH]; simpl; [apply preserves_ret|].
  apply preserves_bindM; [apply Hf|]. intros y.
  apply preserves_bindM; [apply IH|]. intros ys. apply preserves_ret.
Qed.

Lemma preserves_QuaxTracer trace v : preserves_state (_QuaxTracer trace v).
Proof. unfold _QuaxTracer. by destruct (_is_value v). Qed.

Lemma preserves_tracer_value t : preserves_state (tracer_value t).
Proof. by destruct t. Qed.

Lemma preserves_pure trace v : preserves_state (pure trace v).
Proof.
  unfold pure. destruct (_is_value v); [done|].
  destruct (is_array_like v); simpl; [apply preserves_QuaxTracer | done].
Qed.

Lemma preserves_full_raise trace v : preserves_state (full_raise trace v).
Proof.
  unfold full_raise, lift, sublift.
  destruct v; try apply preserves_pure.
  repeat case_decide; try done; apply preserves_QuaxTracer.
Qed.

Lemma preserves_wrap_tracer trace x : preserves_state (_wrap_tracer trace x).
Proof.
  unfold _wrap_tracer. destruct (_is_value x); [apply preserves_QuaxTracer | done].
Qed.

Lemma preserves_unwrap_tracer trace x : preserves_state (_unwrap_tracer trace x).
Proof.
  unfold _unwrap_tracer. apply preserves_bindM.
  - destruct (is_array_like x); [apply preserves_full_raise | done].
  - intros [ | | | ? ? [] | | ]; done.
Qed.

Lemma preserves_tree_map f x :
  (forall y, preserves_state (f y)) -> preserves_state (tree_map f x).
Proof.
  intros Hf. destruct x; simpl; try apply Hf.
  - apply preserves_bindM; [apply Hf | done].
  - apply preserves_bindM; [by apply preserves_for_each | done].
Qed.

Lemma preserves_tree_map_out f out :
  (forall y, preserves_state (f y)) -> preserves_state (tree_map_out f out).
Proof.
  intros Hf. destruct out; simpl.
  - apply preserves_bindM; [by apply preserves_tree_map | done].
  - apply preserves_bindM; [|done].
    apply preserves_for_each. intros. by apply preserves_tree_map.
Qed.

(** ** Wrapping and unwrapping *)

Lemma pure_array trace a s :
  pure trace (Arr a) s =
  (Ok (QTracer (main_level (main trace)) (sublevel trace) (DenseV (Arr a))), s).
Proof. done. Qed.

Lemma full_raise_same trace v s :
  full_raise trace (QTracer (main_level (main trace)) (sublevel trace) v) s =
  (Ok (QTracer (main_level (main trace)) (sublevel trace) v), s).
Proof. unfold full_raise. by rewrite !decide_True. Qed.

Lemma unwrap_tracer_same trace v s :
  _unwrap_tracer trace (QTracer (main_level (main trace)) (sublevel trace) v) s =
  (Ok (unwrap_dense v), s).
Proof.
  unfold _unwrap_tracer. simpl is_array_like. cbv iota.
  rewrite (bindM_ok _ _ _ _ _ (full_raise_same trace v s)).
  by destruct v.
Qed.

(** C6: a plain array wrapped by [pure] into a tracer over a
    [_DenseArrayValue] and then unwrapped by [_unwrap_tracer] is the same
    array, and so is a plain array unwrapped directly; the re-wrapping of a
    result by [_wrap_if_array] is undone by the unwrapping of operands in
    [process_primitive].  The trace state is untouched. *)
Theorem wrap_unwrap_roundtrip (trace : Trace) (a : Array) (s : TraceState) :
  bindM (pure trace (Arr a)) (_unwrap_tracer trace) s = (Ok (Arr a), s)
  /\ _unwrap_tracer trace (Arr a) s = (Ok (Arr a), s)
  /\ unwrap_dense (_wrap_if_array (Arr a)) = Arr a.
Proof.
  split; [|split].
  - rewrite (bindM_ok _ _ _ _ _ (pure_array trace a s)).
    apply unwrap_tracer_same.
  - unfold _unwrap_tracer. simpl is_array_like. cbv iota.
    unfold full_raise. by rewrite (bindM_ok _ _ _ _ _ (pure_array trace a s)).
  - done.
Qed.

(** ** The overrides collected by [_default_process] *)

Lemma set_add_elem d d' ds : d' ∈ set_add d ds <-> d' ∈ ds \/ d' = d.
Proof.
  unfold set_add. case_decide.
  - split; [by left | intros [?| ->]; done].
  - rewrite elem_of_app, list_elem_of_singleton. done.
Qed.

Lemma set_add_NoDup d ds : NoDup ds -> NoDup (set_add d ds).
Proof.
  intros H. unfold set_add. case_decide; [done|].
  apply NoDup_app. split; [done|]. split; [|apply NoDup_singleton].
  intros x Hx Hx'. apply list_elem_of_singleton in Hx'. by subst.
Qed.

Lemma overrides_cons x rest d :
  d ∈ overrides (x :: rest) <->
  (_is_value x = true /\ d = class_default (class_of x) /\ d <> Value_default_fn)
  \/ d ∈ overrides rest.
Proof.
  unfold overrides. rewrite filter_cons.
  destruct (decide (_is_value x = true)) as [Hv|Hv].
  - rewrite fmap_cons, filter_cons. case_decide as Hd.
    + rewrite elem_of_cons. split.
      * intros [->|?]; [left|right]; done.
      * intros [(_ & -> & _)|?]; [left|right]; done.
    + split; [by right|]. intros [(_ & -> & Hne)|?]; done.
  - split; [by right|]. intros [(? & _)|?]; done.
Qed.

Lemma overrides_custom c aux fields rest d :
  d ∈ overrides (CustomV c aux fields :: rest) <->
  (d = class_default c /\ d <> Value_default_fn) \/ d ∈ overrides rest.
Proof. rewrite overrides_cons. simpl. tauto. Qed.

Lemma overrides_nil d : d ∈ overrides [] <-> False.
Proof. unfold overrides. simpl. by rewrite elem_of_nil. Qed.

Lemma operands_check (values : list Obj) :
  forallb (fun x => _is_value x || is_array_like x) values = true -> Forall operand values.
Proof.
  induction values as [|x values IH]; simpl; intros H; [constructor|].
  apply andb_prop in H as [Hx H]. constructor; [|by apply IH].
  apply orb_prop in Hx. exact Hx.
Qed.

Lemma collect_defaults_spec values : forall acc,
  Forall operand values -> NoDup acc ->
  exists ds, collect_defaults values acc = Ok ds /\ NoDup ds /\
             forall d, d ∈ ds <-> d ∈ acc \/ d ∈ overrides values.
Proof.
  induction values as [|x rest IH]; intros acc Hops Hnd; simpl.
  - exists acc. split; [done|]. split; [done|]. intros d.
    unfold overrides. simpl. rewrite elem_of_nil. tauto.
  - inversion Hops as [|? ? Hx Hrest]; subst.
    destruct (_is_value x) eqn:Hv.
    + case_decide as Hd.
      * destruct (IH acc Hrest Hnd) as (ds & -> & Hnd' & Hds).
        exists ds. split; [done|]. split; [done|]. intros d.
        rewrite Hds, overrides_cons. split; [tauto|].
        intros [?|[(_ & -> & Hne)|?]]; [tauto|done|tauto].
      * destruct (IH _ Hrest (set_add_NoDup (class_default (class_of x)) _ Hnd))
          as (ds & -> & Hnd' & Hds).
        exists ds. split; [done|]. split; [done|]. intros d.
        rewrite Hds, set_add_elem, overrides_cons. split.
        -- intros [[?| ->]|?]; [tauto| |tauto]. right. left. done.
        -- intros [?|[(_ & -> & _)|?]]; tauto.
    + destruct Hx as [Hx|Hx]; [congruence|]. rewrite Hx.
      destruct (IH acc Hrest Hnd) as (ds & -> & Hnd' & Hds).
      exists ds. split; [done|]. split; [done|]. intros d.
      rewrite Hds, overrides_cons. split; [tauto|].
      intros [?|[(Hv' & _)|?]]; [tauto|congruence|tauto].
Qed.

Lemma collect_defaults_none values :
  Forall operand values -> overrides values = [] ->
  collect_defaults values [] = Ok [].
Proof.
  intros Hops Hnone.
  destruct (collect_defaults_spec values [] Hops (NoDup_nil_2 (A:=DefaultFn))) as (ds & -> & _ & Hds).
  destruct ds as [|d ds]; [done|]. exfalso.
  destruct (proj1 (Hds d)) as [H|H]; [left| |].
  - by apply elem_of_nil in H.
  - rewrite Hnone in H. by apply elem_of_nil in H.
Qed.

Lemma collect_defaults_one values d :
  Forall operand values -> d ∈ overrides values ->
  (forall d', d' ∈ overrides values -> d' = d) ->
  collect_defaults values [] = Ok [d].
Proof.
  intros Hops Hin Huniq.
  destruct (collect_defaults_spec values [] Hops (NoDup_nil_2 (A:=DefaultFn))) as (ds & -> & Hnd & Hds).
  assert (Hall : forall d', d' ∈ ds -> d' = d).
  { intros d' H'. apply Hds in H' as [H'|H']; [by apply elem_of_nil in H'|by apply Huniq]. }
  assert (Hd : d ∈ ds) by (apply Hds; by right).
  destruct ds as [|d1 [|d2 ds]].
  - by apply elem_of_nil in Hd.
  - rewrite (Hall d1); [done|left].
  - exfalso. apply NoDup_cons in Hnd as [Hnotin _]. apply Hnotin.
    rewrite (Hall d1), <- (Hall d2); [left|right; left|left].
Qed.

Lemma collect_defaults_many values d1 d2 :
  Forall operand values -> d1 ∈ overrides values -> d2 ∈ overrides values -> d1 <> d2 ->
  exists da db ds, collect_defaults values [] = Ok (da :: db :: ds).
Proof.
  intros Hops H1 H2 Hne.
  destruct (collect_defaults_spec values [] Hops (NoDup_nil_2 (A:=DefaultFn))) as (ds & -> & Hnd & Hds).
  assert (Hd1 : d1 ∈ ds) by (apply Hds; by right).
  assert (Hd2 : d2 ∈ ds) by (apply Hds; by right).
  destruct ds as [|da [|db ds]].
  - by apply elem_of_nil in Hd1.
  - apply list_elem_of_singleton in Hd1, Hd2. congruence.
  - by exists da, db, ds.
Qed.

(** ** Messages *)

Lemma append_assoc (s1 s2 s3 : string) : (s1 +:+ s2) +:+ s3 = s1 +:+ s2 +:+ s3.
Proof.
  induction s1 as [|a s1 IH]; [done|].
  change (String a ((s1 +:+ s2) +:+ s3) = String a (s1 +:+ s2 +:+ s3)).
  by rewrite IH.
Qed.

Lemma append_nil_r (s : string) : s +:+ "" = s.
Proof.
  induction s as [|a s IH]; [done|].
  change (String a (s +:+ "") = String a s). by rewrite IH.
Qed.

Lemma contains_here pre sub post : contains (pre +:+ sub +:+ post) sub.
Proof. by exists pre, post. Qed.

Lemma contains_append_l msg sub pre : contains msg sub -> contains (pre +:+ msg) sub.
Proof.
  intros (p & q & ->). exists (pre +:+ p), q. by rewrite append_assoc.
Qed.

Lemma contains_append_r msg sub post : contains msg sub -> contains (msg +:+ post) sub.
Proof.
  intros (p & q & ->). exists p, (q +:+ post). by rewrite !append_assoc.
Qed.

Lemma contains_join sep (xs : list string) x : x ∈ xs -> contains (join sep xs) x.
Proof.
  induction xs as [|y [|z xs] IH]; intros Hx.
  - by apply elem_of_nil in Hx.
  - apply list_elem_of_singleton in Hx as ->. exists "", "". simpl.
    by rewrite append_nil_r.
  - apply elem_of_cons in Hx as [->|Hx].
    + change (contains (y +:+ sep +:+ join sep (z :: xs)) y).
      exists "", (sep +:+ join sep (z :: xs)). done.
    + change (contains (y +:+ sep +:+ join sep (z :: xs)) x).
      do 2 apply contains_append_l. by apply IH.
Qed.

(** The message of the ambiguity names the type of every operand. *)
Lemma multiple_defaults_msg_names values x :
  x ∈ values -> contains (multiple_defaults_msg values) (type_repr (type_of x)).
Proof.
  intros Hx. unfold multiple_defaults_msg, types_repr.
  apply contains_append_l, contains_append_r, contains_append_l, contains_append_r.
  apply contains_join, list_elem_of_fmap. exists (type_of x). split; [done|].
  apply elem_of_remove_dups, list_elem_of_fmap. by exists x.
Qed.

Lemma boundary_msg_names val : contains (boundary_msg val) (type_repr (type_of val)).
Proof. apply contains_here. Qed.

(** ** Dispatch and default materialisation *)

Section Dispatch.

Variable materialise_custom : Class -> list Z -> list Obj -> M Obj.
Variable aval_custom : Class -> list Z -> list Obj -> Result Aval.
Variable default_override : Class -> Primitive -> list Obj -> Params -> M Out.
Variable impl : Primitive -> list Obj -> Params -> Result Out.
Variable resolve_method : Function -> list Obj -> Resolution.
Variable jit : (list Obj -> M Out) -> list Obj -> M Out.
Variable _rules : gmap Primitive Function.
Variable bind : Primitive -> list Obj -> Params -> M Out.

Local Abbreviation default_process := (_default_process materialise_custom default_override bind).
Local Abbreviation dispatch_prim :=
  (dispatch_primitive materialise_custom default_override resolve_method jit _rules bind).
Local Abbreviation process_prim :=
  (process_primitive materialise_custom aval_custom
                     default_override resolve_method jit _rules bind).

Lemma default_process_ambiguous primitive values params s d1 d2 :
  Forall operand values ->
  d1 ∈ overrides values -> d2 ∈ overrides values -> d1 <> d2 ->
  default_process primitive values params s =
  (Err (TypeError (multiple_defaults_msg values)), s).
Proof.
  intros Hops H1 H2 Hne.
  destruct (collect_defaults_many values d1 d2 Hops H1 H2 Hne) as (da & db & ds & Hc).
  unfold _default_process, lift_result, bindM. by rewrite Hc.
Qed.

Lemma default_process_single primitive values params s d :
  Forall operand values ->
  d ∈ overrides values -> (forall d', d' ∈ overrides values -> d' = d) ->
  default_process primitive values params s =
  ensure_compile_time_eval
    (call_default materialise_custom default_override bind d primitive values params) s.
Proof.
  intros Hops Hin Huniq.
  unfold _default_process, lift_result, bindM.
  by rewrite (collect_defaults_one values d Hops Hin Huniq).
Qed.

Lemma default_process_base primitive values params s :
  Forall operand values -> overrides values = [] ->
  default_process primitive values params s =
  ensure_compile_time_eval (Value_default materialise_custom bind primitive values params) s.
Proof.
  intros Hops Hnone.
  unfold _default_process, lift_result, bindM.
  by rewrite (collect_defaults_none values Hops Hnone).
Qed.

Lemma tracer_values self (vals : list Obj) s :
  for_each tracer_value (tracer_of self <$> vals) s = (Ok vals, s).
Proof.
  induction vals as [|v vals IH]; [done|].
  rewrite fmap_cons. cbn [for_each].
  rewrite (bindM_ok _ _ s v s eq_refl).
  by rewrite (bindM_ok _ _ s vals s IH).
Qed.

Lemma process_primitive_unfold self primitive vals params s :
  process_prim self primitive (tracer_of self <$> vals) params s =
  bindM (dispatch_prim primitive (unwrap_dense <$> vals) params)
        (wrap_results aval_custom bind self primitive) s.
Proof.
  unfold process_primitive.
  by rewrite (bindM_ok _ _ _ _ _ (tracer_values self vals s)).
Qed.

Lemma wrap_operand self x s :
  operand x ->
  _QuaxTracer self (_wrap_if_array x) s = (Ok (tracer_of self (_wrap_if_array x)), s).
Proof.
  intros Hx. unfold _QuaxTracer, _wrap_if_array.
  destruct (is_array_like x) eqn:Ha; [done|].
  destruct Hx as [Hv|Hv]; [|congruence]. by rewrite Hv.
Qed.

(** C2: on a primitive with an entry in the registry whose dispatcher
    resolves a rule for the unwrapped operands, [process_primitive] is the
    call of that very rule on the unwrapped operands and on the parameters
    it was given, followed by the wrapping of the results, and the default
    materialisation is not run: a rule [f] of client code is called as
    [f values params], and the rule for [pjit_p] as [pjit_rule values
    params].  Without an entry, or when resolution signals not-found, it
    runs the default materialisation on the same operands and parameters,
    and raises nothing of its own. *)
Theorem dispatch_precedence (self : Trace) (primitive : Primitive) (vals : list Obj)
    (params : Params) (s : TraceState) :
  let values := unwrap_dense <$> vals in
  let tracers := tracer_of self <$> vals in
  (forall rule f,
      _rules !! primitive = Some rule ->
      resolve_method rule values = Found (ClientRule f) ->
      process_prim self primitive tracers params s =
      bindM (f values params) (wrap_results aval_custom bind self primitive) s)
  /\ (forall rule,
      _rules !! primitive = Some rule ->
      resolve_method rule values = Found PjitRule ->
      process_prim self primitive tracers params s =
      bindM (pjit_rule jit bind values params)
            (wrap_results aval_custom bind self primitive) s)
  /\ (_rules !! primitive = None ->
      process_prim self primitive tracers params s =
      bindM (default_process primitive values params)
            (wrap_results aval_custom bind self primitive) s)
  /\ (forall rule,
      _rules !! primitive = Some rule ->
      resolve_method rule values = NotFoundLookupError ->
      process_prim self primitive tracers params s =
      bindM (default_process primitive values params)
            (wrap_results aval_custom bind self primitive) s).
Proof.
  intros values tracers. subst values tracers.
  repeat split; intros; rewrite process_primitive_unfold;
    unfold bindM, dispatch_primitive.
  - by rewrite H, H0.
  - by rewrite H, H0.
  - by rewrite H.
  - by rewrite H, H0.
Qed.

(** C9: once the interception of a primitive has produced [out], every
    result becomes a new tracer of the current trace: each element on its
    own when the primitive has multiple results, the single result
    otherwise; a plain array is wrapped in a [_DenseArrayValue] first and a
    custom value is the payload as it is. *)
Theorem results_wrapped (self : Trace) (primitive : Primitive) (vals : list Obj)
    (params : Params) (s s' : TraceState) (out : Out) :
  dispatch_prim primitive (unwrap_dense <$> vals) params s = (Ok out, s') ->
  Forall operand (out_list out) ->
  (multiple_results primitive = true -> forall os, out = Many os ->
     process_prim self primitive (tracer_of self <$> vals) params s =
     (Ok (Many ((fun x => tracer_of self (_wrap_if_array x)) <$> os)), s'))
  /\ (multiple_results primitive = false -> forall o, out = One o ->
     process_prim self primitive (tracer_of self <$> vals) params s =
     (Ok (One (tracer_of self (_wrap_if_array o))), s'))
  /\ (forall x, is_array_like x = true -> _wrap_if_array x = DenseV x)
  /\ (forall x, _is_value x = true -> _wrap_if_array x = x).
Proof.
  intros Hd Hops. repeat split.
  - intros Hm os ->. rewrite process_primitive_unfold, (bindM_ok _ _ _ _ _ Hd).
    unfold wrap_results. rewrite Hm.
    assert (Hw : for_each (fun x => _QuaxTracer self (_wrap_if_array x)) os s' =
                 (Ok ((fun x => tracer_of self (_wrap_if_array x)) <$> os), s')).
    { apply for_each_ok. intros x Hx. apply wrap_operand. simpl in Hops.
      by apply (proj1 (Forall_forall _ _) Hops). }
    by rewrite (bindM_ok _ _ _ _ _ Hw).
  - intros Hm o ->. rewrite process_primitive_unfold, (bindM_ok _ _ _ _ _ Hd).
    unfold wrap_results. rewrite Hm.
    assert (Ho : operand o) by (simpl in Hops; by inversion Hops).
    by rewrite (bindM_ok _ _ _ _ _ (wrap_operand self o s' Ho)).
  - intros x Hx. unfold _wrap_if_array. by rewrite Hx.
  - intros x Hx. unfold _wrap_if_array. by destruct x.
Qed.

End Dispatch.

Lemma dispatch_precedence_witness :
  let process rules :=
    process_primitive Example.materialise_custom Example.aval_custom
      Example.default_override
      Example.resolve_method Example.jit rules (Example.ebind 3) Example.trace1 in
  process Example.scaled_rules Example.mul_p
          (tracer_of Example.trace1 <$> [Example.a1; DenseV (Example.arr [5%Z])])
          (mkParams None false [("axis", 3%Z)]) Example.state1 =
    (Ok (One (tracer_of Example.trace1
                (CustomV Example.A [3%Z] [Example.a1; Example.arr [5%Z]]))),
     Example.state1)
  /\ process Example._rules pjit_p
          (tracer_of Example.trace1 <$> [Example.a1; Example.a2])
          (mkParams (Some Example.add_jaxpr) true []) Example.state1 =
    (Ok (Many [tracer_of Example.trace1 (CustomV Example.A [7%Z] [])]), Example.state1)
  /\ process Example._rules Example.neg_p (tracer_of Example.trace1 <$> [Example.v1])
          Example.no_params Example.state1 =
    (Ok (One (tracer_of Example.trace1 (DenseV (Example.arr [(-1)%Z])))), Example.state1)
  /\ process Example._rules Example.add_p
          (tracer_of Example.trace1 <$> [Example.v1; DenseV (Example.arr [5%Z])])
          Example.no_params Example.state1 =
    (Ok (One (tracer_of Example.trace1 (DenseV (Example.arr [6%Z])))), Example.state1).
Proof.
  intros process. subst process. cbv beta. split; [|split; [|split]].
  - destruct (dispatch_precedence Example.materialise_custom Example.aval_custom
                Example.default_override
                Example.resolve_method Example.jit Example.scaled_rules (Example.ebind 3)
                Example.trace1 Example.mul_p [Example.a1; DenseV (Example.arr [5%Z])]
                (mkParams None false [("axis", 3%Z)]) Example.state1) as (H & _).
    rewrite (H _ Example.mul_A_array eq_refl eq_refl). reflexivity.
  - destruct (dispatch_precedence Example.materialise_custom Example.aval_custom
                Example.default_override
                Example.resolve_method Example.jit Example._rules (Example.ebind 3)
                Example.trace1 pjit_p [Example.a1; Example.a2]
                (mkParams (Some Example.add_jaxpr) true []) Example.state1) as (_ & H & _).
    rewrite (H _ eq_refl eq_refl). reflexivity.
  - destruct (dispatch_precedence Example.materialise_custom Example.aval_custom
                Example.default_override
                Example.resolve_method Example.jit Example._rules (Example.ebind 3)
                Example.trace1 Example.neg_p [Example.v1]
                Example.no_params Example.state1) as (_ & _ & H & _).
    rewrite (H eq_refl). reflexivity.
  - destruct (dispatch_precedence Example.materialise_custom Example.aval_custom
                Example.default_override
                Example.resolve_method Example.jit Example._rules (Example.ebind 3)
                Example.trace1 Example.add_p [Example.v1; DenseV (Example.arr [5%Z])]
                Example.no_params Example.state1) as (_ & _ & _ & H).
    rewrite (H _ eq_refl eq_refl). reflexivity.
Defined.

Lemma results_wrapped_witness :
  let process := process_primitive Example.materialise_custom Example.aval_custom
                   Example.default_override
                   Example.resolve_method Example.jit Example._rules (Example.ebind 3)
                   Example.trace1 in
  process Example.split_p (tracer_of Example.trace1 <$> [DenseV (Example.arr [1%Z; 2%Z])])
          Example.no_params Example.state1 =
    (Ok (Many [tracer_of Example.trace1 (DenseV (Example.arr [1%Z]));
               tracer_of Example.trace1 (DenseV (Example.arr [2%Z]))]), Example.state1)
  /\ process Example.add_p (tracer_of Example.trace1 <$> [Example.a1; Example.a2])
          Example.no_params Example.state1 =
    (Ok (One (tracer_of Example.trace1 (CustomV Example.A [7%Z] []))), Example.state1).
Proof.
  intros process. subst process. split.
  - destruct (results_wrapped Example.materialise_custom Example.aval_custom
                Example.default_override
                Example.resolve_method Example.jit Example._rules (Example.ebind 3)
                Example.trace1 Example.split_p [DenseV (Example.arr [1%Z; 2%Z])]
                Example.no_params Example.state1 Example.state1
                (Many [Example.arr [1%Z]; Example.arr [2%Z]])) as (H & _).
    + vm_compute; reflexivity.
    + repeat constructor; right; reflexivity.
    + rewrite (H eq_refl _ eq_refl). reflexivity.
  - destruct (results_wrapped Example.materialise_custom Example.aval_custom
                Example.default_override
                Example.resolve_method Example.jit Example._rules (Example.ebind 3)
                Example.trace1 Example.add_p [Example.a1; Example.a2]
                Example.no_params Example.state1 Example.state1
                (One (CustomV Example.A [7%Z] []))) as (_ & H & _).
    + vm_compute; reflexivity.
    + repeat constructor; left; reflexivity.
    + rewrite (H eq_refl _ eq_refl). reflexivity.
Defined.

(** ** The host's bind and the default materialisation *)

Lemma find_top_trace_plain args s :
  top_level args = None ->
  find_top_trace args s = (Ok (mkTrace (dynamic s) (cur_sublevel s)), s).
Proof. intros H. unfold find_top_trace. by rewrite H. Qed.

Lemma eval_state_restored s :
  mkState (match stack s !! 0 with
           | Some b => <[0 := b]> (stack (eval_state s))
           | None => stack (eval_state s)
           end) (dynamic s) (cur_sublevel (eval_state s)) = s.
Proof. by destruct s as [[|m st] d sl]. Qed.

Lemma ensure_eval_preserved {A} (body : M A) s r :
  body (eval_state s) = (r, eval_state s) ->
  ensure_compile_time_eval body s = (r, s).
Proof.
  intros H. unfold ensure_compile_time_eval. fold (eval_state s).
  rewrite H. f_equal. apply eval_state_restored.
Qed.

Lemma preserves_ensure_eval {A} (body : M A) :
  preserves_state body -> preserves_state (ensure_compile_time_eval body).
Proof.
  intros Hb s. unfold ensure_compile_time_eval. fold (eval_state s).
  specialize (Hb (eval_state s)). destruct (body (eval_state s)) as [r s'].
  simpl in *. subst s'. apply eval_state_restored.
Qed.

Section Host.

Variable materialise_custom : Class -> list Z -> list Obj -> M Obj.
Variable aval_custom : Class -> list Z -> list Obj -> Result Aval.
Variable default_override : Class -> Primitive -> list Obj -> Params -> M Out.
Variable impl : Primitive -> list Obj -> Params -> Result Out.
Variable resolve_method : Function -> list Obj -> Resolution.
Variable jit : (list Obj -> M Out) -> list Obj -> M Out.
Variable _rules : gmap Primitive Function.

Local Abbreviation host_bind :=
  (bind materialise_custom aval_custom default_override impl resolve_method jit _rules).

(** Under the evaluating trace, a bind on operands that hold no tracer is
    the built-in implementation. *)
Lemma bind_eval fuel primitive args params s :
  top_level args = None -> trace_type (dynamic s) = EvalTrace ->
  host_bind (S fuel) primitive args params s = (builtin impl primitive args params, s).
Proof.
  intros Htop Hdyn. cbn [bind].
  rewrite (bindM_ok _ _ _ _ _ (find_top_trace_plain args s Htop)).
  cbn [main]. rewrite Hdyn. unfold bindM, lift_result, builtin.
  by destruct (impl primitive args params).
Qed.

(** The base fallback [Value.default] in the scope that
    [_default_process] opens: once every custom operand has materialised,
    the built-in implementation runs on the arrays. *)
Lemma default_process_builtin fuel primitive values params s arrays :
  Forall operand values -> overrides values = [] ->
  for_each (fun x => if is_array_like x then ret x else materialise materialise_custom x)
           values (eval_state s) = (Ok arrays, eval_state s) ->
  top_level arrays = None ->
  _default_process materialise_custom default_override (host_bind (S fuel))
                   primitive values params s =
  (builtin impl primitive arrays params, s).
Proof.
  intros Hops Hnone Hmat Htop.
  rewrite default_process_base by done.
  apply ensure_eval_preserved. unfold Value_default.
  rewrite (bindM_ok _ _ _ _ _ Hmat). by apply bind_eval.
Qed.

Local Abbreviation default_process :=
  (_default_process materialise_custom default_override).
Local Abbreviation dispatch_prim :=
  (dispatch_primitive materialise_custom default_override resolve_method jit _rules).

Lemma dispatch_unregistered bind primitive values params :
  _rules !! primitive = None ->
  dispatch_prim bind primitive values params = default_process bind primitive values params.
Proof. intros H. unfold dispatch_primitive. by rewrite H. Qed.

(** C3: in the default materialisation, operands that expose more than one
    distinct override of [default] raise a [TypeError] whose message prints
    the type of every operand; operands that expose exactly one distinct
    override are handed to that override; operands that expose none are
    handed to the base fallback, which materialises the custom operands and
    runs the built-in implementation on the arrays.  So an unregistered
    primitive on an instance of [a] and an instance of [b], two classes
    whose bodies each define [default], raises, and on two instances of [a]
    it runs the override of [a]. *)
Theorem default_materialisation (fuel : nat) (primitive : Primitive) (values : list Obj)
    (params : Params) (s : TraceState) :
  Forall operand values ->
  (forall bind d1 d2,
      d1 ∈ overrides values -> d2 ∈ overrides values -> d1 <> d2 ->
      default_process bind primitive values params s =
        (Err (TypeError (multiple_defaults_msg values)), s)
      /\ forall x, x ∈ values ->
           contains (multiple_defaults_msg values) (type_repr (type_of x)))
  /\ (forall bind c,
      Override c ∈ overrides values ->
      (forall d, d ∈ overrides values -> d = Override c) ->
      default_process bind primitive values params s =
        ensure_compile_time_eval (default_override c primitive values params) s)
  /\ (forall arrays,
      overrides values = [] ->
      for_each (fun x => if is_array_like x then ret x else materialise materialise_custom x)
               values (eval_state s) = (Ok arrays, eval_state s) ->
      top_level arrays = None ->
      default_process (host_bind (S fuel)) primitive values params s =
        (builtin impl primitive arrays params, s))
  /\ (forall bind na nb basea baseb auxx fx auxy fy auxz fz,
      _rules !! primitive = None ->
      Sub na true basea <> Sub nb true baseb ->
      dispatch_prim bind primitive
        [CustomV (Sub na true basea) auxx fx; CustomV (Sub nb true baseb) auxy fy] params s =
        (Err (TypeError (multiple_defaults_msg
           [CustomV (Sub na true basea) auxx fx; CustomV (Sub nb true baseb) auxy fy])), s)
      /\ dispatch_prim bind primitive
        [CustomV (Sub na true basea) auxx fx; CustomV (Sub na true basea) auxz fz] params s =
        ensure_compile_time_eval
          (default_override (Sub na true basea) primitive
             [CustomV (Sub na true basea) auxx fx; CustomV (Sub na true basea) auxz fz] params) s).
Proof.
  intros Hops. split; [|split; [|split]].
  - intros bind d1 d2 H1 H2 Hne. split.
    + by apply default_process_ambiguous with d1 d2.
    + intros x Hx. by apply multiple_defaults_msg_names.
  - intros bind c Hin Huniq.
    by rewrite (default_process_single _ _ _ primitive values params s (Override c)).
  - intros arrays Hnone Hmat Htop. by apply default_process_builtin.
  - intros bind na nb basea baseb auxx fx auxy fy auxz fz Hreg Hne.
    rewrite !dispatch_unregistered by done. split.
    + apply default_process_ambiguous
        with (Override (Sub na true basea)) (Override (Sub nb true baseb)).
      * repeat constructor.
      * apply overrides_custom. by left.
      * apply overrides_custom. right. apply overrides_custom. by left.
      * congruence.
    + rewrite (default_process_single _ _ _ primitive _ params s
                 (Override (Sub na true basea))); [done| | |].
      * repeat constructor.
      * apply overrides_custom. by left.
      * intros d Hd. apply overrides_custom in Hd as [[-> _]|Hd]; [done|].
        apply overrides_custom in Hd as [[-> _]|Hd]; [done|].
        by apply overrides_nil in Hd.
Qed.

(** C10: the ambiguity check counts overrides, not operand types: for two
    different classes [a] and [b] that both inherit the [default] defined in
    the body of [c], an unregistered primitive on an instance of each
    collects one override and runs it, without the ambiguity error. *)
Theorem shared_override_not_ambiguous (bind : Primitive -> list Obj -> Params -> M Out)
    (primitive : Primitive) (params : Params) (s : TraceState)
    (a b c : Class) (auxx auxy : list Z) (fx fy : list Obj) :
  a <> b ->
  class_default a = Override c -> class_default b = Override c ->
  _rules !! primitive = None ->
  type_of (CustomV a auxx fx) <> type_of (CustomV b auxy fy)
  /\ collect_defaults [CustomV a auxx fx; CustomV b auxy fy] [] = Ok [Override c]
  /\ dispatch_prim bind primitive [CustomV a auxx fx; CustomV b auxy fy] params s =
     ensure_compile_time_eval
       (default_override c primitive [CustomV a auxx fx; CustomV b auxy fy] params) s.
Proof.
  intros Hne Ha Hb Hreg.
  assert (Hops : Forall operand [CustomV a auxx fx; CustomV b auxy fy])
    by (repeat constructor).
  assert (Hin : Override c ∈ overrides [CustomV a auxx fx; CustomV b auxy fy]).
  { apply overrides_custom. left. by rewrite Ha. }
  assert (Huniq : forall d, d ∈ overrides [CustomV a auxx fx; CustomV b auxy fy] ->
                            d = Override c).
  { intros d Hd. apply overrides_custom in Hd as [[-> _]|Hd]; [done|].
    apply overrides_custom in Hd as [[-> _]|Hd]; [done|].
    by apply overrides_nil in Hd. }
  split; [simpl; congruence|]. split.
  - by apply collect_defaults_one.
  - rewrite dispatch_unregistered by done.
    by rewrite (default_process_single _ _ _ primitive _ params s (Override c)).
Qed.

End Host.

Lemma default_materialisation_witness :
  let default_process := _default_process Example.materialise_custom Example.default_override
                           (Example.ebind 3) in
  default_process Example.mul_p [Example.a1; Example.b1] Example.no_params Example.state1 =
    (Err (TypeError "Multiple array-ish types {<class 'A'>, <class 'B'>} are specifying default process rules."),
     Example.state1)
  /\ contains (multiple_defaults_msg [Example.a1; Example.b1]) "<class 'B'>"
  /\ default_process Example.mul_p [Example.a1; Example.arr [2%Z]] Example.no_params
       Example.state1 = (Ok (One (CustomV Example.A [] [])), Example.state1)
  /\ default_process Example.add_p [Example.v1; Example.arr [5%Z]] Example.no_params
       Example.state1 = (Ok (One (Example.arr [6%Z])), Example.state1)
  /\ dispatch_primitive Example.materialise_custom Example.default_override
       Example.resolve_method Example.jit Example._rules (Example.ebind 3)
       Example.mul_p [Example.a1; Example.a2] Example.no_params Example.state1 =
     (Ok (One (CustomV Example.A [] [])), Example.state1).
Proof.
  intros default_process. subst default_process.
  pose (thm := default_materialisation Example.materialise_custom Example.aval_custom
                 Example.default_override
                 Example.impl Example.resolve_method Example.jit Example._rules 2).
  split; [|split; [|split; [|split]]].
  - destruct (thm Example.mul_p [Example.a1; Example.b1] Example.no_params Example.state1)
      as (H & _); [by apply operands_check|].
    destruct (H (Example.ebind 3) (Override Example.A) (Override Example.B)) as [H1 _].
    + apply overrides_custom. left. split; [reflexivity|discriminate].
    + apply overrides_custom. right.
      apply overrides_custom. left. split; [reflexivity|discriminate].
    + discriminate.
    + rewrite H1. reflexivity.
  - destruct (thm Example.mul_p [Example.a1; Example.b1] Example.no_params Example.state1)
      as (H & _); [by apply operands_check|].
    destruct (H (Example.ebind 3) (Override Example.A) (Override Example.B)) as [_ H2].
    + apply overrides_custom. left. split; [reflexivity|discriminate].
    + apply overrides_custom. right.
      apply overrides_custom. left. split; [reflexivity|discriminate].
    + discriminate.
    + apply (H2 Example.b1). right. left.
  - destruct (thm Example.mul_p [Example.a1; Example.arr [2%Z]] Example.no_params
                Example.state1) as (_ & H & _).
    + by apply operands_check.
    + rewrite (H (Example.ebind 3) Example.A); [reflexivity| |].
      * apply overrides_custom. left. split; [reflexivity|discriminate].
      * intros d Hd. apply overrides_custom in Hd as [[-> _]|Hd]; [reflexivity|].
        apply overrides_cons in Hd as [(Hv & _)|Hd]; [discriminate|].
        by apply overrides_nil in Hd.
  - destruct (thm Example.add_p [Example.v1; Example.arr [5%Z]] Example.no_params
                Example.state1) as (_ & _ & H & _).
    + by apply operands_check.
    + unfold Example.ebind. rewrite (H [Example.arr [1%Z]; Example.arr [5%Z]]); reflexivity.
  - destruct (thm Example.mul_p [Example.a1; Example.a2] Example.no_params Example.state1)
      as (_ & _ & _ & H); [by apply operands_check|].
    destruct (H (Example.ebind 3) "A" "B" ArrayValue_cls ArrayValue_cls
                [] [Example.arr [1%Z]] [] [Example.arr [3%Z]] [] [Example.arr [2%Z]])
      as [_ H2]; [reflexivity|discriminate|].
    unfold Example.a1, Example.a2, Example.A. rewrite H2. reflexivity.
Defined.

Lemma shared_override_not_ambiguous_witness :
  type_of Example.pa1 <> type_of Example.pb1
  /\ collect_defaults [Example.pa1; Example.pb1] [] = Ok [Override Example.P]
  /\ dispatch_primitive Example.materialise_custom Example.default_override
       Example.resolve_method Example.jit Example._rules (Example.ebind 3)
       Example.mul_p [Example.pa1; Example.pb1] Example.no_params Example.state1 =
     (Ok (One (CustomV Example.P [] [])), Example.state1).
Proof.
  destruct (shared_override_not_ambiguous Example.materialise_custom Example.default_override
              Example.resolve_method Example.jit Example._rules (Example.ebind 3)
              Example.mul_p Example.no_params Example.state1
              Example.PA Example.PB Example.P [] [] [Example.arr [4%Z]] [Example.arr [5%Z]])
    as (H1 & H2 & H3); [discriminate|reflexivity|reflexivity|reflexivity|].
  split; [exact H1|]. split; [exact H2|].
  unfold Example.pa1, Example.pb1. rewrite H3. reflexivity.
Defined.

(** ** The trace stack is restored *)

Lemma entered_left s :
  mkState (removelast (stack (entered s))) (dynamic s) (cur_sublevel (entered s)) = s.
Proof. destruct s as [st d sl]. simpl. by rewrite removelast_last. Qed.

Lemma new_main_preserved {A} (body : MainTrace -> M A) s r :
  body (entry_main s) (entered s) = (r, entered s) ->
  new_main QuaxTrace body s = (r, s).
Proof.
  intros H. unfold new_main. fold (entry_main s). fold (entered s).
  rewrite H. f_equal. apply entered_left.
Qed.

Lemma preserves_new_main {A} (body : MainTrace -> M A) :
  (forall m, preserves_state (body m)) -> preserves_state (new_main QuaxTrace body).
Proof.
  intros Hb s. unfold new_main. fold (entry_main s). fold (entered s).
  specialize (Hb (entry_main s) (entered s)).
  destruct (body (entry_main s) (entered s)) as [r s']. simpl in *. subst s'.
  apply entered_left.
Qed.

Lemma preserves_Quaxify_call fn args :
  (forall xs, preserves_state (fn xs)) -> preserves_state (_Quaxify_call fn args).
Proof.
  intros Hfn. unfold _Quaxify_call. apply preserves_new_main. intros m.
  apply preserves_bindM; [done|]. intros sl.
  apply preserves_bindM; [apply preserves_for_each, preserves_wrap_tracer|]. intros xs.
  apply preserves_bindM; [apply Hfn|]. intros out.
  apply preserves_bindM; [|done].
  apply preserves_tree_map_out, preserves_unwrap_tracer.
Qed.

Lemma wrap_tracers trace args s :
  for_each (_wrap_tracer trace) args s = (Ok (wrapped trace <$> args), s).
Proof.
  apply for_each_ok. intros x _. unfold _wrap_tracer, wrapped, _QuaxTracer.
  by destruct (_is_value x).
Qed.

(** The entry point, step by step: the function runs on the wrapped
    arguments in the entered state. *)
Lemma Quaxify_call_unfold fn args s :
  _Quaxify_call fn args s =
  new_main QuaxTrace (fun main =>
    let* out := fn (wrapped (mkTrace main (cur_sublevel (entered s))) <$> args) in
    tree_map_out (_unwrap_tracer (mkTrace main (cur_sublevel (entered s)))) out) s.
Proof.
  unfold _Quaxify_call, new_main. fold (entry_main s). fold (entered s).
  unfold bindM at 1. cbn beta iota.
  rewrite (bindM_ok _ _ _ _ _ (wrap_tracers _ args (entered s))).
  unfold bindM, ret.
  destruct (fn _ (entered s)) as [[out|e] s1]; [|done].
  by destruct (tree_map_out _ out s1) as [[o|e] s2].
Qed.

Section Bracketing.

Variable materialise_custom : Class -> list Z -> list Obj -> M Obj.
Variable aval_custom : Class -> list Z -> list Obj -> Result Aval.
Variable default_override : Class -> Primitive -> list Obj -> Params -> M Out.
Variable impl : Primitive -> list Obj -> Params -> Result Out.
Variable resolve_method : Function -> list Obj -> Resolution.
Variable jit : (list Obj -> M Out) -> list Obj -> M Out.
Variable _rules : gmap Primitive Function.

(** Client code leaves the trace state as it found it: it has no access to
    the stack except through scoped context managers. *)
Hypothesis materialise_bracketed :
  forall c aux fields, preserves_state (materialise_custom c aux fields).
Hypothesis override_bracketed :
  forall c p values params, preserves_state (default_override c p values params).
Hypothesis rules_bracketed :
  forall p rule values f,
    _rules !! p = Some rule -> resolve_method rule values = Found (ClientRule f) ->
    forall vs params, preserves_state (f vs params).
Hypothesis jit_bracketed :
  forall f x, (forall y, preserves_state (f y)) -> preserves_state (jit f x).

Local Abbreviation host_bind :=
  (bind materialise_custom aval_custom default_override impl resolve_method jit _rules).

Lemma preserves_materialise x : preserves_state (materialise materialise_custom x).
Proof. destruct x; simpl; first [apply materialise_bracketed | done]. Qed.

Lemma preserves_jaxpr_as_fun b j args :
  (forall p xs ps, preserves_state (b p xs ps)) ->
  preserves_state (jaxpr_as_fun b j args).
Proof.
  intros Hb. unfold jaxpr_as_fun. apply preserves_bindM.
  - generalize args. induction (eqns j) as [|e es IH]; intros env; simpl; [done|].
    apply preserves_bindM.
    + apply preserves_for_each. intros [i|o]; simpl; [by destruct (env !! i)|done].
    + intros invals. apply preserves_bindM; [apply Hb|]. intros ans. apply IH.
  - intros env. apply preserves_bindM; [|done].
    apply preserves_for_each. intros [i|o]; simpl; [by destruct (env !! i)|done].
Qed.

Lemma preserves_wrap_result self out : preserves_state (wrap_result self out).
Proof. destruct out; [apply preserves_QuaxTracer|done]. Qed.

Lemma preserves_wrap_each b self out :
  (forall p xs ps, preserves_state (b p xs ps)) ->
  preserves_state (wrap_each aval_custom b self out).
Proof.
  intros Hb. destruct out as [o|os]; cycle 1.
  { apply preserves_for_each. intros. apply preserves_QuaxTracer. }
  destruct o; try done.
  - apply preserves_bindM; [done|]. intros rows.
    apply preserves_for_each. intros. apply preserves_QuaxTracer.
  - cbn [wrap_each]. apply preserves_bindM; [done|]. intros aval.
    destruct (shape aval) as [|n rest]; [done|].
    apply preserves_for_each. intros i.
    apply preserves_bindM; [|intros; apply preserves_wrap_result].
    unfold index_in_dim. apply preserves_bindM; [apply Hb|].
    intros [row|rows]; [apply Hb|done].
Qed.

Lemma preserves_process_primitive b self p tracers params :
  (forall p xs ps, preserves_state (b p xs ps)) ->
  preserves_state (process_primitive materialise_custom aval_custom default_override
                     resolve_method jit _rules b self p tracers params).
Proof.
  intros Hb.
  assert (Hdef : forall vs, preserves_state
            (_default_process materialise_custom default_override b p vs params)).
  { intros vs. unfold _default_process. apply preserves_bindM; [done|]. intros ds.
    apply preserves_bindM.
    - destruct ds as [|d [|d' ds]]; done.
    - intros [|c]; apply preserves_ensure_eval; simpl; [|apply override_bracketed].
      unfold Value_default. apply preserves_bindM; [|intros; apply Hb].
      apply preserves_for_each. intros x.
      destruct (is_array_like x); [done|apply preserves_materialise]. }
  unfold process_primitive. apply preserves_bindM.
  { apply preserves_for_each, preserves_tracer_value. }
  intros values. apply preserves_bindM.
  - unfold dispatch_primitive.
    destruct (_rules !! p) as [rule|] eqn:Hrule; [|apply Hdef].
    destruct (resolve_method rule _) as [[|f]| |e] eqn:Hres; [| |apply Hdef|done].
    + simpl. unfold pjit_rule. destruct (jaxpr params) as [j|]; [|done].
      destruct (inline params).
      * apply preserves_Quaxify_call. intros. by apply preserves_jaxpr_as_fun.
      * destruct (tree_flatten _) as [leaves treedef].
        apply preserves_ensure_eval, jit_bracketed. intros y.
        apply preserves_bindM; [done|]. intros xs.
        apply preserves_Quaxify_call. intros. by apply preserves_jaxpr_as_fun.
    + simpl. by apply (rules_bracketed _ _ _ _ Hrule Hres).
  - intros out. unfold wrap_results. destruct (multiple_results p).
    + apply preserves_bindM; [|done]. by apply preserves_wrap_each.
    + apply preserves_bindM; [|done]. apply preserves_wrap_result.
Qed.

(** The host's bind leaves the trace state as it found it, whether the
    rule, the override, the materialisation or the built-in implementation
    returns or raises. *)
Lemma preserves_bind fuel : forall p args params,
  preserves_state (host_bind fuel p args params).
Proof.
  induction fuel as [|fuel IH]; intros p args params; [done|].
  cbn [bind]. apply preserves_bindM; [done|]. intros trace.
  apply preserves_bindM; [|done].
  destruct (trace_type (main trace)); [done|].
  apply preserves_bindM; [apply preserves_for_each, preserves_full_raise|].
  intros tracers. by apply preserves_process_primitive.
Qed.

(** C7: the main trace that a call of the wrapped function pushes is
    popped on every exit path.  Whatever the function returns or raises, the
    call ends in the trace state it started from; an exception of the
    function reaches the caller with the stack already popped; and for a
    function given as a jaxpr this holds whether a dispatch rule, an
    override of [default], a [materialise] or the built-in implementation
    raises. *)
Theorem trace_context_popped (fn : list Obj -> M Out) (args : list Obj) (s : TraceState) :
  (forall xs, preserves_state (fn xs)) ->
  (_Quaxify_call fn args s).2 = s
  /\ (forall e,
        fn (wrapped (entry_trace s) <$> args) (entered s) = (Err e, entered s) ->
        _Quaxify_call fn args s = (Err e, s))
  /\ (forall fuel j,
        (quaxify materialise_custom aval_custom
                 default_override impl resolve_method jit _rules
                 fuel j args s).2 = s).
Proof.
  intros Hfn. split; [|split].
  - by apply preserves_Quaxify_call.
  - intros e He. rewrite Quaxify_call_unfold. apply new_main_preserved.
    by apply bindM_err.
  - intros fuel j. apply preserves_Quaxify_call. intros xs.
    apply preserves_jaxpr_as_fun. apply preserves_bind.
Qed.

End Bracketing.

(** The small client is bracketed. *)
Lemma example_materialise_bracketed c aux fields :
  preserves_state (Example.materialise_custom c aux fields).
Proof. by destruct fields. Qed.

Lemma example_override_bracketed c p values params :
  preserves_state (Example.default_override c p values params).
Proof. done. Qed.

Lemma example_jit_bracketed f x :
  (forall y, preserves_state (f y)) -> preserves_state (Example.jit f x).
Proof. intros H. apply H. Qed.

Lemma example_rules_bracketed p rule values f :
  Example._rules !! p = Some rule ->
  Example.resolve_method rule values = Found (ClientRule f) ->
  forall vs params, preserves_state (f vs params).
Proof.
  unfold Example._rules, loaded_rules, register.
  rewrite lookup_empty.
  rewrite (lookup_insert_ne _ pjit_p Example.add_p) by done. rewrite lookup_empty.
  rewrite lookup_insert. case_decide as H1.
  - intros [= <-]. unfold Example.resolve_method. cbn [methods abstract dispatch add_method].
    rewrite filter_cons. case_decide; [|done]. by intros [= <-].
  - rewrite lookup_insert. case_decide as H2; [|by rewrite lookup_empty].
    intros [= <-]. unfold Example.resolve_method. cbn [methods abstract dispatch add_method].
    rewrite filter_cons. by case_decide.
Qed.

Lemma trace_context_popped_witness :
  let fn := jaxpr_as_fun (Example.ebind 3) Example.add_constant in
  (_Quaxify_call fn [Example.arr [1%Z]] initial_state).2 = initial_state
  /\ _Quaxify_call fn [Example.arr [1%Z]] initial_state =
     (Err (TypeError (boundary_msg Example.a1)), initial_state)
  /\ (quaxify Example.materialise_custom Example.aval_custom
              Example.default_override Example.impl
        Example.resolve_method Example.jit Example._rules 3 Example.neg_add
        [Example.a1; Example.a2] initial_state).2 = initial_state.
Proof.
  intros fn.
  destruct (trace_context_popped Example.materialise_custom Example.aval_custom
              Example.default_override
              Example.impl Example.resolve_method Example.jit Example._rules
              example_materialise_bracketed example_override_bracketed
              example_rules_bracketed example_jit_bracketed
              fn [Example.arr [1%Z]] initial_state) as (H1 & H2 & H3).
  - intros xs. apply preserves_jaxpr_as_fun.
    apply (preserves_bind _ _ _ _ _ _ _ example_materialise_bracketed
             example_override_bracketed example_rules_bracketed example_jit_bracketed).
  - split; [exact H1|]. split; [apply H2; reflexivity|].
    apply (trace_context_popped Example.materialise_custom Example.aval_custom
             Example.default_override
             Example.impl Example.resolve_method Example.jit Example._rules
             example_materialise_bracketed example_override_bracketed
             example_rules_bracketed example_jit_bracketed
             (fun _ => ret (Many [])) [Example.a1; Example.a2] initial_state).
    done.
Defined.

(** ** Custom values built inside the wrapped function *)

Section Boundary.

Variable materialise_custom : Class -> list Z -> list Obj -> M Obj.
Variable aval_custom : Class -> list Z -> list Obj -> Result Aval.
Variable default_override : Class -> Primitive -> list Obj -> Params -> M Out.
Variable impl : Primitive -> list Obj -> Params -> Result Out.
Variable resolve_method : Function -> list Obj -> Resolution.
Variable jit : (list Obj -> M Out) -> list Obj -> M Out.
Variable _rules : gmap Primitive Function.

Local Abbreviation host_bind :=
  (bind materialise_custom aval_custom default_override impl resolve_method jit _rules).
Local Abbreviation host_quaxify :=
  (quaxify materialise_custom aval_custom default_override impl resolve_method jit _rules).

(** A bind whose operands hold no tracer goes to the dynamic trace; when
    that is a [_QuaxTrace], a custom value among plain arrays stops it in
    [pure]. *)
Lemma bind_raw_value fuel primitive a v params s :
  _is_value v = true -> trace_type (dynamic s) = QuaxTrace ->
  host_bind (S fuel) primitive [Arr a; v] params s =
  (Err (TypeError (boundary_msg v)), s).
Proof.
  intros Hv Hdyn. cbn [bind].
  assert (Htop : top_level [Arr a; v] = None) by (by destruct v).
  rewrite (bindM_ok _ _ _ _ _ (find_top_trace_plain _ s Htop)).
  cbn [main]. rewrite Hdyn.
  erewrite bindM_err; [done|]. apply bindM_err.
  by destruct v.
Qed.

(** C4: a custom value that reaches [pure] raises a [TypeError] whose
    message prints its type.  That is the fate of a value built inside the
    wrapped function, [quaxify(lambda x: p.bind(x, v))(a)] for a plain array
    [a]: the first bind raises the error, nothing catches or retries it,
    and the call ends with it, the trace stack popped. *)
Theorem boundary_violation (fuel : nat) (trace : Trace) (primitive : Primitive)
    (params : Params) (rest : list Eqn) (outs : list Atom) (a : Array) (v : Obj)
    (s : TraceState) :
  _is_value v = true ->
  pure trace v s = (Err (TypeError (boundary_msg v)), s)
  /\ full_raise trace v s = (Err (TypeError (boundary_msg v)), s)
  /\ contains (boundary_msg v) (type_repr (type_of v))
  /\ host_quaxify (S fuel)
       (mkJaxpr (mkEqn primitive [Var 0; Lit v] params :: rest) outs) [Arr a] s =
     (Err (TypeError (boundary_msg v)), s).
Proof.
  intros Hv. split; [|split; [|split]].
  - unfold pure. by rewrite Hv.
  - unfold full_raise, pure. by destruct v.
  - apply boundary_msg_names.
  - unfold quaxify. rewrite Quaxify_call_unfold. apply new_main_preserved.
    apply bindM_err. unfold jaxpr_as_fun. apply bindM_err.
    cbn [eqns eval_eqns eqn_invars eqn_primitive eqn_params fmap list_fmap wrapped _is_value].
    erewrite bindM_ok; [|reflexivity].
    apply bindM_err. by apply bind_raw_value.
Qed.

End Boundary.

Lemma boundary_violation_witness :
  quaxify Example.materialise_custom Example.aval_custom
          Example.default_override Example.impl
    Example.resolve_method Example.jit Example._rules 3 Example.add_constant
    [Example.arr [1%Z]] initial_state =
  (Err (TypeError (boundary_msg Example.a1)), initial_state)
  /\ contains (boundary_msg Example.a1) "<class 'A'>".
Proof.
  destruct (boundary_violation Example.materialise_custom Example.aval_custom
              Example.default_override
              Example.impl Example.resolve_method Example.jit Example._rules
              2 Example.trace1 Example.add_p Example.no_params [] [Var 1]
              (mkArray JaxArray (mkAval [1] "float32") [1%Z]) Example.a1 initial_state)
    as (_ & _ & H3 & H4); [reflexivity|].
  split; [exact H4 | exact H3].
Defined.

(** ** Compiled subgraphs *)

Lemma tree_flatten_cons x xs :
  tree_flatten (x :: xs) =
  ((flatten_one x).1 ++ (tree_flatten xs).1, (flatten_one x).2 :: (tree_flatten xs).2).
Proof. simpl. by destruct (flatten_one x), (tree_flatten xs). Qed.

(** Unflattening what was flattened gives the objects back. *)
Lemma tree_unflatten_flatten xs :
  tree_unflatten (tree_flatten xs).2 (tree_flatten xs).1 = Ok xs.
Proof.
  induction xs as [|x xs IH]; [done|].
  rewrite tree_flatten_cons. cbn [fst snd tree_unflatten].
  set (n := match (flatten_one x).2 with CustomDef _ _ n => n | _ => 1 end).
  assert (Hn : length (flatten_one x).1 = n) by (by destruct x).
  rewrite decide_False by (rewrite length_app; lia).
  rewrite <- Hn, take_app_length, drop_app_length, IH.
  by destruct x.
Qed.


(** ** Transparency on plain arrays *)

Lemma plain_is_array x : is_plain x = true -> exists a, x = Arr a.
Proof. destruct x; try done. by eexists. Qed.

Lemma plain_top_level xs : forallb is_plain xs = true -> top_level xs = None.
Proof.
  induction xs as [|x xs IH]; [done|]. simpl. intros [Hx Hxs]%andb_prop.
  rewrite (IH Hxs). by destruct x.
Qed.

Lemma plain_forall xs : forallb is_plain xs = true <-> Forall (fun x => is_plain x = true) xs.
Proof.
  induction xs as [|x xs IH]; simpl; [by split|].
  rewrite andb_true_iff, Forall_cons, IH. done.
Qed.

Lemma plain_operands xs : forallb is_plain xs = true -> Forall operand xs.
Proof.
  rewrite plain_forall. intros H. eapply Forall_impl; [exact H|].
  intros x Hx. right. by destruct x.
Qed.

Lemma plain_overrides xs : forallb is_plain xs = true -> overrides xs = [].
Proof.
  induction xs as [|x xs IH]; [done|]. simpl. intros [Hx Hxs]%andb_prop.
  unfold overrides in *. rewrite filter_cons. destruct x; try done.
  rewrite decide_False by done. by apply IH.
Qed.

Lemma plain_unwrap_dense (xs : list Obj) : unwrap_dense <$> (DenseV <$> xs) = xs.
Proof. rewrite <- list_fmap_compose. apply list_fmap_id. Qed.

Lemma plain_full_lower trace xs :
  forallb is_plain xs = true ->
  full_lower <$> ((fun x => tracer_of trace (_wrap_if_array x)) <$> xs) = xs.
Proof.
  rewrite plain_forall. induction 1 as [|x xs Hx _ IH]; [done|].
  rewrite !fmap_cons, IH. by destruct x.
Qed.

Lemma plain_lower_out multiple out :
  forallb is_plain (out_list out) = true -> lower_out multiple out = out.
Proof.
  destruct multiple, out as [o|os]; simpl; try done.
  - intros H. f_equal. apply plain_forall in H.
    induction H as [|x xs Hx _ IH]; [done|]. rewrite fmap_cons, IH. by destruct x.
  - rewrite andb_true_r. by destruct o.
Qed.

Section Transparency.

Variable materialise_custom : Class -> list Z -> list Obj -> M Obj.
Variable aval_custom : Class -> list Z -> list Obj -> Result Aval.
Variable default_override : Class -> Primitive -> list Obj -> Params -> M Out.
Variable impl : Primitive -> list Obj -> Params -> Result Out.
Variable resolve_method : Function -> list Obj -> Resolution.
Variable jit : (list Obj -> M Out) -> list Obj -> M Out.
Variable _rules : gmap Primitive Function.

Hypothesis impl_arrays : returns_arrays impl.

Local Abbreviation host_bind :=
  (bind materialise_custom aval_custom default_override impl resolve_method jit _rules).
Local Abbreviation process_prim :=
  (process_primitive materialise_custom aval_custom
                     default_override resolve_method jit _rules).

Lemma plain_materialised xs s :
  forallb is_plain xs = true ->
  for_each (fun x => if is_array_like x then ret x else materialise materialise_custom x)
           xs s = (Ok xs, s).
Proof.
  intros H. rewrite <- (list_fmap_id xs) at 2. apply for_each_ok.
  intros x Hx. apply plain_forall in H.
  pose proof (proj1 (Forall_forall _ _) H x Hx) as Hp. by destruct x.
Qed.

Lemma plain_raised trace xs s :
  forallb is_plain xs = true ->
  for_each (full_raise trace) xs s = (Ok (tracer_of trace <$> (DenseV <$> xs)), s).
Proof.
  intros H. rewrite <- list_fmap_compose. apply for_each_ok.
  intros x Hx. apply plain_forall in H.
  pose proof (proj1 (Forall_forall _ _) H x Hx) as Hp. by destruct x.
Qed.

Lemma builtin_plain p xs ps out :
  forallb is_plain xs = true -> builtin impl p xs ps = Ok out ->
  impl p xs ps = Ok out /\
  if multiple_results p
  then exists os, out = Many os /\ forallb is_plain os = true
  else exists o, out = One o /\ is_plain o = true.
Proof.
  intros Hxs. unfold builtin. destruct (impl p xs ps) as [out'|e] eqn:Hi; [|done].
  pose proof (impl_arrays p xs ps out' Hxs Hi) as Hc. intros [= <-].
  assert (Hl : lower_out (multiple_results p) out' = out').
  { apply plain_lower_out. destruct (multiple_results p).
    - by destruct Hc as (os & -> & Hos).
    - destruct Hc as (o & -> & Ho). simpl. by rewrite Ho. }
  by rewrite Hl.
Qed.

(** Under a [_QuaxTrace], a bind on plain arrays for which no rule is
    resolved is the built-in implementation, as it is under the evaluating
    trace. *)
Lemma bind_quax_plain fuel p xs ps s :
  forallb is_plain xs = true -> trace_type (dynamic s) = QuaxTrace ->
  unresolved_on_arrays resolve_method _rules p ->
  host_bind (S (S fuel)) p xs ps s = (builtin impl p xs ps, s).
Proof.
  intros Hxs Hdyn Hun. cbn [bind].
  rewrite (bindM_ok _ _ _ _ _ (find_top_trace_plain xs s (plain_top_level xs Hxs))).
  cbn [main]. rewrite Hdyn.
  set (trace := mkTrace (dynamic s) (cur_sublevel s)).
  assert (Hdisp : dispatch_primitive materialise_custom default_override resolve_method
                    jit _rules (host_bind (S fuel)) p xs ps s =
                  (builtin impl p xs ps, s)).
  { assert (Hdef : _default_process materialise_custom default_override
                     (host_bind (S fuel)) p xs ps s = (builtin impl p xs ps, s)).
    { apply default_process_builtin;
        auto using plain_operands, plain_overrides, plain_top_level, plain_materialised. }
    unfold dispatch_primitive. specialize (Hun xs Hxs).
    destruct (_rules !! p); [by rewrite Hun|done]. }
  unfold bindM at 1.
  rewrite (bindM_ok _ _ _ _ _ (plain_raised trace xs s Hxs)).
  rewrite process_primitive_unfold, plain_unwrap_dense.
  destruct (builtin impl p xs ps) as [out|e] eqn:Hb.
  - rewrite (bindM_ok _ _ _ _ _ Hdisp).
    destruct (builtin_plain p xs ps out Hxs Hb) as [_ Hc].
    unfold wrap_results. destruct (multiple_results p).
    + destruct Hc as (os & -> & Hos).
      assert (Hw : for_each (fun x => _QuaxTracer trace (_wrap_if_array x)) os s =
                   (Ok ((fun x => tracer_of trace (_wrap_if_array x)) <$> os), s)).
      { apply for_each_ok. intros x Hx. apply wrap_operand.
        by apply (proj1 (Forall_forall _ _) (plain_operands os Hos)). }
      rewrite (bindM_ok _ _ _ _ _ Hw). unfold bindM, ret. cbn [lower_out].
      by rewrite plain_full_lower.
    + destruct Hc as (o & -> & Ho). by destruct o.
  - by rewrite (bindM_err _ _ _ _ _ Hdisp).
Qed.

Lemma read_plain env a :
  exists r, (forall s, read env a s = (r, s)) /\
            (forallb is_plain env = true -> plain_atom a = true ->
             forall o, r = Ok o -> is_plain o = true).
Proof.
  destruct a as [i|o]; simpl.
  - destruct (env !! i) as [o|] eqn:Hi.
    + exists (Ok o). split; [done|]. intros Henv _ o' [= <-].
      apply plain_forall in Henv.
      apply (proj1 (Forall_forall _ _) Henv). by apply (list_elem_of_lookup_2 _ i).
    + by exists (Err (Raised "KeyError")).
  - exists (Ok o). split; [done|]. by intros _ Ho o' [= <-].
Qed.

Lemma reads_plain env atoms :
  exists r, (forall s, for_each (read env) atoms s = (r, s)) /\
            (forallb is_plain env = true -> forallb plain_atom atoms = true ->
             forall os, r = Ok os -> forallb is_plain os = true).
Proof.
  induction atoms as [|a atoms (rs & Hrs & Hps)]; simpl.
  - exists (Ok []). split; [done|]. by intros _ _ os [= <-].
  - destruct (read_plain env a) as (r & Hr & Hp).
    destruct r as [o|e].
    + destruct rs as [os|e].
      * exists (Ok (o :: os)). split.
        -- intros s. rewrite (bindM_ok _ _ _ _ _ (Hr s)).
           by rewrite (bindM_ok _ _ _ _ _ (Hrs s)).
        -- intros Henv [Ha Has]%andb_prop os' [= <-]. simpl.
           rewrite (Hp Henv Ha o eq_refl). by apply Hps.
      * exists (Err e). split; [|done].
        intros s. rewrite (bindM_ok _ _ _ _ _ (Hr s)).
        by rewrite (bindM_err _ _ _ _ _ (Hrs s)).
    + exists (Err e). split; [|done].
      intros s. by rewrite (bindM_err _ _ _ _ _ (Hr s)).
Qed.

Lemma forallb_plain_app xs ys :
  forallb is_plain xs = true -> forallb is_plain ys = true ->
  forallb is_plain (xs ++ ys) = true.
Proof. intros Hx Hy. by rewrite forallb_app, Hx, Hy. Qed.

(** The equations of a function on arrays run to the same environment
    under a [_QuaxTrace] and under the evaluating trace. *)
Lemma eval_eqns_plain fuel es : forall env s1 s2,
  forallb is_plain env = true ->
  Forall (fun e => forallb plain_atom (eqn_invars e) = true) es ->
  Forall (fun e => unresolved_on_arrays resolve_method _rules (eqn_primitive e)) es ->
  trace_type (dynamic s1) = QuaxTrace -> trace_type (dynamic s2) = EvalTrace ->
  exists r, eval_eqns (host_bind (S (S fuel))) es env s1 = (r, s1) /\
            eval_eqns (host_bind (S (S fuel))) es env s2 = (r, s2) /\
            forall env', r = Ok env' -> forallb is_plain env' = true.
Proof.
  induction es as [|e es IH]; intros env s1 s2 Henv Hes Hun H1 H2.
  - exists (Ok env). repeat split; [by intros env' [= <-]].
  - apply Forall_cons in Hes as [He Hes]. apply Forall_cons in Hun as [Hue Hun].
    cbn [eval_eqns].
    destruct (reads_plain env (eqn_invars e)) as (r & Hr & Hp).
    destruct r as [invals|err]; cycle 1.
    { exists (Err err). by rewrite !(bindM_err _ _ _ _ _ (Hr _)). }
    rewrite !(bindM_ok _ _ _ _ _ (Hr _)).
    pose proof (Hp Henv He invals eq_refl) as Hin.
    pose proof (bind_quax_plain fuel (eqn_primitive e) invals (eqn_params e) s1
                  Hin H1 Hue) as Hq.
    pose proof (bind_eval materialise_custom aval_custom
                          default_override impl resolve_method jit
                  _rules (S fuel) (eqn_primitive e) invals (eqn_params e) s2
                  (plain_top_level _ Hin) H2) as He2.
    destruct (builtin impl (eqn_primitive e) invals (eqn_params e)) as [out|err] eqn:Hb;
      cycle 1.
    { exists (Err err). by rewrite (bindM_err _ _ _ _ _ Hq), (bindM_err _ _ _ _ _ He2). }
    rewrite (bindM_ok _ _ _ _ _ Hq), (bindM_ok _ _ _ _ _ He2).
    apply IH; try done. apply forallb_plain_app; [done|].
    destruct (builtin_plain _ _ _ _ Hin Hb) as [_ Hc].
    destruct (multiple_results (eqn_primitive e)).
    + by destruct Hc as (os & -> & Hos).
    + destruct Hc as (o & -> & Ho). simpl. by rewrite Ho.
Qed.

Lemma unwrap_plain trace os s :
  forallb is_plain os = true ->
  tree_map_out (_unwrap_tracer trace) (Many os) s = (Ok (Many os), s).
Proof.
  intros Hos. simpl.
  assert (H : for_each (tree_map (_unwrap_tracer trace)) os s = (Ok os, s)).
  { rewrite <- (list_fmap_id os) at 2. apply for_each_ok. intros x Hx.
    apply plain_forall in Hos.
    pose proof (proj1 (Forall_forall _ _) Hos x Hx) as Hp. by destruct x. }
  by rewrite (bindM_ok _ _ _ _ _ H).
Qed.

Lemma wrapped_plain trace args :
  forallb is_plain args = true -> wrapped trace <$> args = args.
Proof.
  rewrite plain_forall. induction 1 as [|x xs Hx _ IH]; [done|].
  rewrite fmap_cons, IH. by destruct x.
Qed.

(** C1, amended: for a function on arrays and plain-array inputs, the
    wrapped call returns what the function returns, and raises what it
    raises, whenever no rule of the registry is resolved on plain arrays
    for the primitives the function binds; every operand is then an array
    that the default materialisation leaves as it is, and the built-in
    implementation runs on it. *)
Theorem transparency_without_matching_rule (fuel : nat) (j : Jaxpr) (args : list Obj)
    (s : TraceState) :
  forallb is_plain args = true ->
  plain_jaxpr j ->
  Forall (fun e => unresolved_on_arrays resolve_method _rules (eqn_primitive e)) (eqns j) ->
  trace_type (dynamic s) = EvalTrace ->
  quaxify materialise_custom aval_custom default_override impl resolve_method jit _rules
          (S (S fuel)) j args s =
  jaxpr_as_fun (host_bind (S (S fuel))) j args s.
Proof.
  intros Hargs [Hes Houts] Hun Hdyn.
  unfold quaxify. rewrite Quaxify_call_unfold.
  destruct (eval_eqns_plain fuel (eqns j) args (entered s) s Hargs Hes Hun eq_refl Hdyn)
    as (r & Hq & He & Hp).
  unfold jaxpr_as_fun.
  destruct r as [env|err]; cycle 1.
  { rewrite (bindM_err _ _ _ _ _ He). apply new_main_preserved.
    rewrite (wrapped_plain _ _ Hargs). apply bindM_err. by apply bindM_err. }
  rewrite (bindM_ok _ _ _ _ _ He).
  destruct (reads_plain env (outvars j)) as (ro & Hro & Hpo).
  destruct ro as [outs|err]; cycle 1.
  { rewrite (bindM_err _ _ _ _ _ (Hro s)). apply new_main_preserved.
    rewrite (wrapped_plain _ _ Hargs).
    apply bindM_err. rewrite (bindM_ok _ _ _ _ _ Hq).
    by rewrite (bindM_err _ _ _ _ _ (Hro _)). }
  rewrite (bindM_ok _ _ _ _ _ (Hro s)). apply new_main_preserved.
  rewrite (wrapped_plain _ _ Hargs).
  erewrite bindM_ok; cycle 1.
  { rewrite (bindM_ok _ _ _ _ _ Hq). by rewrite (bindM_ok _ _ _ _ _ (Hro _)). }
  apply unwrap_plain. apply Hpo; auto.
Qed.

End Transparency.

Lemma example_impl_arrays : returns_arrays Example.impl.
Proof.
  intros p xs ps out _. unfold Example.impl.
  destruct xs as [|[] [|[] [|]]]; try done; repeat case_decide; try done;
    intros [= <-]; subst p; simpl; eauto.
Qed.

Lemma example_add_unresolved :
  unresolved_on_arrays Example.resolve_method Example._rules Example.add_p.
Proof.
  intros values Hv.
  change (Example._rules !! Example.add_p) with
    (Some (dispatch (abstract "add_dispatcher")
             (mkMethod (mkSig [Class_t Example.A; Class_t Example.A] None)
                       (ClientRule Example.add_A_A)))).
  unfold Example.resolve_method. cbn [methods abstract dispatch add_method].
  rewrite filter_cons, decide_False; [done|].
  cbn [signature positional varargs]. destruct values as [|x values]; [done|].
  simpl in Hv. apply andb_prop in Hv as [Hx _]. by destruct x.
Qed.

Lemma example_neg_unresolved :
  unresolved_on_arrays Example.resolve_method Example._rules Example.neg_p.
Proof. intros values _. done. Qed.

Lemma transparency_without_matching_rule_witness :
  quaxify Example.materialise_custom Example.aval_custom
          Example.default_override Example.impl
    Example.resolve_method Example.jit Example._rules 3 Example.neg_add
    [Example.arr [3%Z]; Example.arr [4%Z]] initial_state =
  (Ok (Many [Example.arr [(-7)%Z]]), initial_state).
Proof.
  rewrite (transparency_without_matching_rule Example.materialise_custom
             Example.aval_custom Example.default_override Example.impl
             Example.resolve_method Example.jit
             Example._rules example_impl_arrays 1 Example.neg_add
             [Example.arr [3%Z]; Example.arr [4%Z]] initial_state).
  - reflexivity.
  - reflexivity.
  - split; [repeat constructor | reflexivity].
  - unfold Example.neg_add. cbn [eqns].
    constructor; [exact example_add_unresolved|].
    constructor; [exact example_neg_unresolved | constructor].
  - reflexivity.
Defined.

(** C1 as stated fails: the interpreter looks every primitive up in the
    registry, also when all operands are plain arrays.  With a rule for
    [mul_p] whose annotations accept plain arrays, the wrapped call of
    [lambda x: mul_p.bind(x, x)] on an array returns what the rule returns
    and not what the function returns; and the rule that the module itself
    registers for [pjit_p] is resolved on plain arrays. *)
Lemma transparency_counterexample :
  quaxify Example.materialise_custom Example.aval_custom
          Example.default_override Example.impl
    Example.resolve_method Example.jit Example.dense_rules 3 Example.square
    [Example.arr [3%Z]] initial_state
  <> jaxpr_as_fun (bind Example.materialise_custom Example.aval_custom
                        Example.default_override Example.impl
                     Example.resolve_method Example.jit Example.dense_rules 3)
       Example.square [Example.arr [3%Z]] initial_state
  /\ (exists rule, loaded_rules !! pjit_p = Some rule /\
                   Example.resolve_method rule [Example.arr [3%Z]] = Found PjitRule).
Proof.
  split.
  - vm_compute. discriminate.
  - eexists. split; reflexivity.
Qed.

(** ** Reconciliation of primal and tangent outputs *)

Section Reconciliation.

Variable materialise_custom : Class -> list Z -> list Obj -> M Obj.
Variable jnp_zeros : Aval -> M Obj.

Local Abbreviation reconcile_pairs := (reconcile materialise_custom).
Local Abbreviation wrap_outputs := (jvp_wrap_outputs materialise_custom jnp_zeros).

Lemma reconcile_spec (mat : Obj -> Obj) (pairs : list (Obj * Obj)) s :
  (forall p t, (p, t) ∈ pairs -> type_of p <> type_of t ->
     materialise materialise_custom p s = (Ok (mat p), s) /\
     materialise materialise_custom t s = (Ok (mat t), s)) ->
  reconcile_pairs pairs s = (Ok (reconciled mat <$> pairs), s).
Proof.
  induction pairs as [|[p t] pairs IH]; intros Hmat; [done|].
  cbn [reconcile]. rewrite fmap_cons.
  assert (Hhead : (if decide (type_of p <> type_of t)
                   then let* primal := materialise materialise_custom p in
                        let* tangent := materialise materialise_custom t in
                        ret (primal, tangent)
                   else ret (p, t)) s = (Ok (reconciled mat (p, t)), s)).
  { unfold reconciled. cbn [fst snd]. case_decide as Hne; [|done].
    destruct (Hmat p t) as [Hp Ht]; [left|done|].
    rewrite (bindM_ok _ _ _ _ _ Hp). by rewrite (bindM_ok _ _ _ _ _ Ht). }
  rewrite (bindM_ok _ _ _ _ _ Hhead).
  rewrite (bindM_ok _ _ _ _ _ (IH (fun p' t' H => Hmat p' t' (list_elem_of_further _ _ _ H)))).
  done.
Qed.

Lemma split_halves (primals tangents : list Obj) :
  length primals = length tangents ->
  take (length (primals ++ tangents) / 2) (primals ++ tangents) = primals /\
  drop (length (primals ++ tangents) / 2) (primals ++ tangents) = tangents.
Proof.
  intros Hlen.
  assert (Hhalf : length (primals ++ tangents) / 2 = length primals).
  { rewrite length_app, <- Hlen.
    replace (length primals + length primals) with (length primals * 2) by lia.
    by apply Nat.div_mul. }
  rewrite Hhalf. split; [apply take_app_length | apply drop_app_length].
Qed.

(** C5, amended: a pair of primal and tangent outputs whose classes differ
    is replaced by what [materialise] returns for each; when both are
    array-likes each flattens to one leaf, whatever the array types are;
    and the bridge raises the consistency error exactly when the flattened
    descriptors of the reconciled primals and tangents differ, returning
    primals, tangents and the primal descriptor otherwise. *)
Theorem derivative_outputs_reconciled (trace : Trace) (mat : Obj -> Obj)
    (out_tracers out_tracers' primals tangents : list Obj) (s : TraceState) :
  for_each (fun t => match t with SymZero aval => jnp_zeros aval | _ => ret t end)
           out_tracers s = (Ok out_tracers', s) ->
  for_each (fun t => let* t := full_raise trace t in tracer_value t) out_tracers' s =
    (Ok (primals ++ tangents), s) ->
  length primals = length tangents ->
  (forall p t, (p, t) ∈ zip primals tangents -> type_of p <> type_of t ->
     materialise materialise_custom p s = (Ok (mat p), s) /\
     materialise materialise_custom t s = (Ok (mat t), s)) ->
  let pairs := reconciled mat <$> zip primals tangents in
  reconcile_pairs (zip primals tangents) s = (Ok pairs, s)
  /\ (forall p t, type_of p <> type_of t -> reconciled mat (p, t) = (mat p, mat t))
  /\ (forall p t, is_array_like (mat p) = true -> is_array_like (mat t) = true ->
        (flatten_one (mat p)).2 = (flatten_one (mat t)).2)
  /\ ((tree_flatten pairs.*1).2 <> (tree_flatten pairs.*2).2 ->
        wrap_outputs trace out_tracers s = (Err (ValueError mismatch_msg), s))
  /\ ((tree_flatten pairs.*1).2 = (tree_flatten pairs.*2).2 ->
        wrap_outputs trace out_tracers s =
        (Ok ((tree_flatten pairs.*1).1 ++ (tree_flatten pairs.*2).1,
             (tree_flatten pairs.*1).2), s)).
Proof.
  intros Hzero Hvals Hlen Hmat pairs.
  pose proof (reconcile_spec mat _ s Hmat) as Hrec. fold pairs in Hrec.
  destruct (split_halves primals tangents Hlen) as [Htake Hdrop].
  assert (Hrun : wrap_outputs trace out_tracers s =
                 (let (out_primals, out_primal_treedef) := tree_flatten pairs.*1 in
                  let (out_tangents, out_tangent_treedef) := tree_flatten pairs.*2 in
                  if decide (out_primal_treedef <> out_tangent_treedef)
                  then raise (ValueError mismatch_msg)
                  else ret (out_primals ++ out_tangents, out_primal_treedef)) s).
  { unfold jvp_wrap_outputs.
    rewrite (bindM_ok _ _ _ _ _ Hzero), (bindM_ok _ _ _ _ _ Hvals).
    rewrite Htake, Hdrop, decide_False by (intros H; by apply H).
    by rewrite (bindM_ok _ _ _ _ _ Hrec). }
  split; [done|]. split; [|split; [|split]].
  - intros p t Hne. unfold reconciled. cbn [fst snd]. by rewrite decide_True.
  - intros p t Hp Ht. by destruct (mat p), (mat t).
  - intros Hne. rewrite Hrun.
    destruct (tree_flatten pairs.*1), (tree_flatten pairs.*2). cbn [snd] in Hne.
    by rewrite decide_True.
  - intros Heq. rewrite Hrun.
    destruct (tree_flatten pairs.*1), (tree_flatten pairs.*2). cbn [fst snd] in *.
    rewrite decide_False; [done|]. intros H. by apply H.
Qed.

End Reconciliation.

Lemma derivative_outputs_reconciled_witness :
  jvp_wrap_outputs Example.materialise_custom Example.jnp_zeros Example.trace1
    [tracer_of Example.trace1 Example.v_numpy; SymZero (Example.f32 2)] Example.state1 =
  (Ok ([Example.numpy_data; Example.zeros2], [LeafDef]), Example.state1)
  /\ jvp_wrap_outputs Example.materialise_custom Example.jnp_zeros Example.trace1
       [tracer_of Example.trace1 (CustomV Example.V [] [Example.zeros2]);
        tracer_of Example.trace1 (CustomV Example.V [1%Z] [Example.zeros2])]
       Example.state1 =
     (Err (ValueError mismatch_msg), Example.state1).
Proof.
  split.
  - destruct (derivative_outputs_reconciled Example.materialise_custom Example.jnp_zeros
                Example.trace1 Example.mat
                [tracer_of Example.trace1 Example.v_numpy; SymZero (Example.f32 2)]
                [tracer_of Example.trace1 Example.v_numpy; Example.zeros2]
                [Example.v_numpy] [DenseV Example.zeros2] Example.state1)
      as (_ & _ & _ & _ & H); [reflexivity|reflexivity|reflexivity| |].
    + intros p t Hin _. apply list_elem_of_singleton in Hin. by inversion Hin.
    + apply H. reflexivity.
  - destruct (derivative_outputs_reconciled Example.materialise_custom Example.jnp_zeros
                Example.trace1 Example.mat
                [tracer_of Example.trace1 (CustomV Example.V [] [Example.zeros2]);
                 tracer_of Example.trace1 (CustomV Example.V [1%Z] [Example.zeros2])]
                [tracer_of Example.trace1 (CustomV Example.V [] [Example.zeros2]);
                 tracer_of Example.trace1 (CustomV Example.V [1%Z] [Example.zeros2])]
                [CustomV Example.V [] [Example.zeros2]]
                [CustomV Example.V [1%Z] [Example.zeros2]] Example.state1)
      as (_ & _ & _ & H & _); [reflexivity|reflexivity|reflexivity| |].
    + intros p t Hin Hne. apply list_elem_of_singleton in Hin. inversion Hin; subst.
      by destruct Hne.
    + apply H. discriminate.
Defined.

(** C5 as stated fails: materialising both members of a pair does not make
    their types match.  A primal of class [V] over NumPy data paired with a
    symbolic-zero tangent: both are materialised, to a NumPy array and to an
    array of the host, and the bridge returns them without an error. *)
Lemma reconciliation_counterexample :
  type_of Example.v_numpy <> type_of (DenseV Example.zeros2)
  /\ reconcile Example.materialise_custom [(Example.v_numpy, DenseV Example.zeros2)]
       Example.state1 =
     (Ok [(Example.numpy_data, Example.zeros2)], Example.state1)
  /\ type_of Example.numpy_data <> type_of Example.zeros2
  /\ jvp_wrap_outputs Example.materialise_custom Example.jnp_zeros Example.trace1
       [tracer_of Example.trace1 Example.v_numpy; SymZero (Example.f32 2)] Example.state1 =
     (Ok ([Example.numpy_data; Example.zeros2], [LeafDef]), Example.state1).
Proof. repeat split; done. Qed.

(** * Further properties of the module *)

(** ** Registration *)

Lemma register_lookup p rule m q :
  register p rule m !! q =
  if decide (p = q)
  then Some (dispatch (default (abstract (prim_name p +:+ "_dispatcher")) (m !! p)) rule)
  else m !! q.
Proof.
  unfold register. case_decide as Hpq.
  - subst q. rewrite lookup_insert. rewrite decide_True by done. by destruct (m !! p).
  - by rewrite lookup_insert_ne.
Qed.

Lemma registered_on_snoc m regs p rule :
  registered_on m (regs ++ [(p, rule)]) = register p rule (registered_on m regs).
Proof. unfold registered_on. by rewrite foldl_app. Qed.

(** X1: the registry is keyed by the primitives that were registered, and
    each of them has one dispatcher, named after it.  After any sequence of
    registrations on an empty registry, a primitive has an entry exactly
    when a rule was registered for it, and the dispatcher of that entry is
    named [<primitive>_dispatcher], however many rules were registered for
    it. *)
Theorem registry_keys_and_names (regs : list (Primitive * Method)) (p : Primitive) :
  (is_Some (registered regs !! p) <-> p ∈ regs.*1)
  /\ (forall f, registered regs !! p = Some f ->
        fn_name f = prim_name p +:+ "_dispatcher").
Proof.
  unfold registered. split.
  - induction regs as [|[q rule] regs IH] using rev_ind.
    + unfold registered_on. cbn [foldl]. rewrite lookup_empty.
      split; [by intros [? ?]|]. cbn. by intros ?%elem_of_nil.
    + rewrite registered_on_snoc, register_lookup, fmap_app, elem_of_app.
      cbn [fmap list_fmap fst]. rewrite list_elem_of_singleton.
      case_decide as Hqp.
      * subst q. split; [by right|by eexists].
      * rewrite IH. split; [by left|]. intros [H|H]; [done|congruence].
  - induction regs as [|[q rule] regs IH] using rev_ind; intros f.
    + unfold registered_on. cbn [foldl]. by rewrite lookup_empty.
    + rewrite registered_on_snoc, register_lookup. case_decide as Hqp; [|apply IH].
      subst q. intros [= <-]. cbn [dispatch fn_name].
      destruct (registered_on ∅ regs !! p) as [g|] eqn:Hg; [|done].
      cbn [default]. by apply IH.
Qed.

Lemma registry_keys_and_names_witness :
  (forall f, Example._rules !! Example.add_p = Some f -> fn_name f = "add_dispatcher")
  /\ is_Some (Example._rules !! pjit_p)
  /\ Example._rules !! Example.mul_p = None.
Proof.
  pose (regs := [(pjit_p, pjit_method);
                 (Example.add_p,
                  mkMethod (mkSig [Class_t Example.A; Class_t Example.A] None)
                           (ClientRule Example.add_A_A))]).
  change Example._rules with (registered regs).
  split; [|split].
  - apply (registry_keys_and_names regs Example.add_p).
  - apply (registry_keys_and_names regs pjit_p). apply list_elem_of_here.
  - apply eq_None_not_Some. intros H.
    apply (registry_keys_and_names regs Example.mul_p) in H.
    apply elem_of_cons in H as [H|H]; [discriminate|].
    apply list_elem_of_singleton in H. discriminate.
Defined.

(** X2: registration keeps what is registered.  A primitive with an entry
    still has one after any further registrations, with a dispatcher of the
    same name, and the very same dispatcher when none of them is for this
    primitive: a registration leaves the entries of all other primitives
    as they were, so registrations for two different primitives can be
    made in either order. *)
Theorem register_keeps (regs : list (Primitive * Method))
    (_rules : gmap Primitive Function) (p : Primitive) (f : Function) :
  _rules !! p = Some f ->
  (exists g, registered_on _rules regs !! p = Some g /\ fn_name g = fn_name f)
  /\ (p ∉ regs.*1 -> registered_on _rules regs !! p = Some f)
  /\ (forall q r1 r2, q <> p ->
        register p r1 (register q r2 _rules) = register q r2 (register p r1 _rules)).
Proof.
  intros Hf. split; [|split].
  - induction regs as [|[q rule] regs IH] using rev_ind; [by exists f|].
    destruct IH as (g & Hg & Hname).
    rewrite registered_on_snoc, register_lookup. case_decide as Hqp; [|by exists g].
    subst q. rewrite Hg. eexists. split; [done|]. exact Hname.
  - induction regs as [|[q rule] regs IH] using rev_ind; [done|].
    rewrite fmap_app, not_elem_of_app. cbn [fmap list_fmap fst].
    rewrite list_elem_of_singleton. intros [Hin Hq].
    rewrite registered_on_snoc, register_lookup.
    rewrite decide_False by congruence. by apply IH.
  - intros q r1 r2 Hq. apply map_eq. intros k.
    rewrite !register_lookup. repeat case_decide; congruence.
Qed.

Lemma register_keeps_witness :
  (exists g, Example._rules !! pjit_p = Some g /\ fn_name g = "pjit_dispatcher")
  /\ Example._rules !! pjit_p = loaded_rules !! pjit_p.
Proof.
  pose (regs := [(Example.add_p,
                  mkMethod (mkSig [Class_t Example.A; Class_t Example.A] None)
                           (ClientRule Example.add_A_A))]).
  change Example._rules with (registered_on loaded_rules regs).
  destruct (register_keeps regs loaded_rules pjit_p
              (dispatch (abstract "pjit_dispatcher") pjit_method) eq_refl)
    as (H1 & H2 & _).
  split; [exact H1|]. rewrite H2; [reflexivity|].
  intros H. apply list_elem_of_singleton in H. discriminate.
Defined.

(** ** Lowering *)

Lemma full_lower_strong x :
  (full_lower (full_lower x) = full_lower x
   /\ forall l sl a, full_lower x <> QTracer l sl (DenseV a))
  /\ forall a, x = DenseV a ->
       full_lower (full_lower a) = full_lower a
       /\ forall l sl b, full_lower a <> QTracer l sl (DenseV b).
Proof.
  induction x as [a|array [IH _]|c aux fields|l sl v [_ IH]|aval|n];
    try (split; [split; [done|by intros]|by intros]).
  - split; [split; [done|by intros]|]. by intros a [= <-].
  - split; [|by intros].
    destruct v as [a|array|c aux fields|l' sl' v'|aval|n];
      try (split; [done|by intros]).
    simpl. by apply (IH array).
Qed.

(** X3: [full_lower] is idempotent, and what it returns is never a tracer
    over a [_DenseArrayValue]: such tracers are lowered to the array they
    hold, however deep, and tracers over custom values are left as they
    are. *)
Theorem full_lower_idempotent (x : Obj) :
  full_lower (full_lower x) = full_lower x
  /\ (forall l sl a, full_lower x <> QTracer l sl (DenseV a))
  /\ (forall l sl c aux fields,
        full_lower (QTracer l sl (CustomV c aux fields)) = QTracer l sl (CustomV c aux fields)).
Proof.
  destruct (full_lower_strong x) as [[H1 H2] _]. by repeat split.
Qed.

(** ** Tracers hold values *)

Lemma bindM_inv_ok {A B} (m : M A) (k : A -> M B) s b s' :
  bindM m k s = (Ok b, s') -> exists a s1, m s = (Ok a, s1) /\ k a s1 = (Ok b, s').
Proof.
  unfold bindM. destruct (m s) as [[a|e] s1]; [|done]. intros H. by exists a, s1.
Qed.

Lemma QuaxTracer_ok self v s t s' :
  _QuaxTracer self v s = (Ok t, s') ->
  t = tracer_of self v /\ _is_value v = true /\ s' = s.
Proof.
  unfold _QuaxTracer. destruct (_is_value v); [|done]. by intros [= <- <-].
Qed.

Lemma QuaxTracers_ok self (g : Obj -> Obj) os : forall s ts s',
  for_each (fun x => _QuaxTracer self (g x)) os s = (Ok ts, s') ->
  ts = (fun x => tracer_of self (g x)) <$> os
  /\ Forall (fun x => _is_value (g x) = true) os /\ s' = s.
Proof.
  induction os as [|o os IH]; intros s ts s' H; simpl in H.
  - by injection H as <- <-.
  - apply bindM_inv_ok in H as (t & s1 & Ht & H).
    apply QuaxTracer_ok in Ht as (-> & Hv & ->).
    apply bindM_inv_ok in H as (ts' & s2 & Hts & H).
    apply IH in Hts as (-> & Hvs & ->). injection H as <- <-.
    split; [done|]. split; [by constructor|done].
Qed.

Lemma wrap_result_ok self out s t s' :
  wrap_result self out s = (Ok t, s') ->
  exists v, t = tracer_of self v /\ _is_value v = true.
Proof.
  destruct out as [o|os]; [|done]. intros H.
  apply QuaxTracer_ok in H as (-> & Hv & _). by eexists.
Qed.

Lemma for_each_all {A B} (f : A -> M B) (P : B -> Prop) xs :
  (forall a s b s', f a s = (Ok b, s') -> P b) ->
  forall s bs s', for_each f xs s = (Ok bs, s') -> Forall P bs.
Proof.
  intros Hf. induction xs as [|x xs IH]; intros s bs s' H; simpl in H.
  - injection H as <- <-. constructor.
  - apply bindM_inv_ok in H as (b & s1 & Hb & H).
    apply bindM_inv_ok in H as (bs' & s2 & Hbs & H). injection H as <- <-.
    constructor; [by eapply Hf|by eapply IH].
Qed.

Section TracerInvariant.

Variable materialise_custom : Class -> list Z -> list Obj -> M Obj.
Variable aval_custom : Class -> list Z -> list Obj -> Result Aval.
Variable default_override : Class -> Primitive -> list Obj -> Params -> M Out.
Variable resolve_method : Function -> list Obj -> Resolution.
Variable jit : (list Obj -> M Out) -> list Obj -> M Out.
Variable _rules : gmap Primitive Function.
Variable bind : Primitive -> list Obj -> Params -> M Out.

Lemma wrap_each_ok self out s ts s' :
  wrap_each aval_custom bind self out s = (Ok ts, s') ->
  Forall (fun t => exists v, t = tracer_of self v /\ _is_value v = true) ts.
Proof.
  assert (Hwrap : forall x s t s',
            _QuaxTracer self (_wrap_if_array x) s = (Ok t, s') ->
            exists v, t = tracer_of self v /\ _is_value v = true).
  { intros x s0 t s0' H. apply QuaxTracer_ok in H as (-> & Hv & _). by eexists. }
  destruct out as [o|os]; [|intros H; exact (for_each_all _ _ _ Hwrap _ _ _ H)].
  destruct o as [a|array|c aux fields|l sl value|aval|n]; try done.
  - intros H. apply bindM_inv_ok in H as (rows & s1 & _ & H).
    exact (for_each_all _ _ _ Hwrap _ _ _ H).
  - cbn [wrap_each]. intros H. apply bindM_inv_ok in H as (aval & s1 & _ & H).
    destruct (shape aval) as [|n rest]; [done|].
    eapply for_each_all; [|exact H].
    intros i s0 t s0' Hi. apply bindM_inv_ok in Hi as (x & s2 & _ & Hi).
    by eapply wrap_result_ok.
Qed.

(** X4: whatever the rule or the fallback returned, every result that
    [process_primitive] hands back is a tracer of the processing trace over
    a [Value]: one tracer when the primitive has a single result, and a
    sequence of tracers when it has several, be the results a sequence, the
    rows of one array or the slices of one tracer.  A result that is
    neither an array nor a [Value] never becomes a tracer: the call raises
    instead. *)
Theorem process_primitive_returns_tracers (self : Trace) (primitive : Primitive)
    (tracers : list Obj) (params : Params) (s s' : TraceState) (out : Out) :
  process_primitive materialise_custom aval_custom default_override resolve_method
                    jit _rules bind self primitive tracers params s = (Ok out, s') ->
  Forall (fun t => exists v, t = tracer_of self v /\ _is_value v = true) (out_list out)
  /\ (if multiple_results primitive then exists ts, out = Many ts
      else exists t, out = One t).
Proof.
  unfold process_primitive. intros H.
  apply bindM_inv_ok in H as (values & s1 & _ & H).
  apply bindM_inv_ok in H as (res & s2 & _ & H).
  unfold wrap_results in H.
  destruct (multiple_results primitive).
  - apply bindM_inv_ok in H as (ts & s3 & Hts & H). injection H as <- <-.
    split; [|by eexists]. by apply wrap_each_ok in Hts.
  - apply bindM_inv_ok in H as (t & s3 & Ht & H). injection H as <- <-.
    split; [|by eexists]. apply wrap_result_ok in Ht. by repeat constructor.
Qed.

End TracerInvariant.

Lemma process_primitive_returns_tracers_witness :
  let row (x : Z) := Arr (mkArray JaxArray (mkAval [] "float32") [x]) in
  process_primitive Example.materialise_custom Example.aval_custom
    Example.default_override Example.resolve_method Example.jit Example.whole_rules
    (Example.ebind 3) Example.trace1 Example.split_p
    (tracer_of Example.trace1 <$> [DenseV (Example.arr [1%Z; 2%Z])])
    Example.no_params Example.state1 =
  (Ok (Many [tracer_of Example.trace1 (DenseV (row 1%Z));
             tracer_of Example.trace1 (DenseV (row 2%Z))]), Example.state1)
  /\ wrap_results Example.aval_custom (Example.ebind 3) Example.trace1 Example.split_p
       (One (tracer_of Example.trace1 (DenseV (Example.arr [1%Z; 2%Z])))) Example.state1 =
     (Ok (Many [tracer_of Example.trace1 (DenseV (row 1%Z));
                tracer_of Example.trace1 (DenseV (row 2%Z))]), Example.state1)
  /\ Forall (fun t => exists v, t = tracer_of Example.trace1 v /\ _is_value v = true)
         [tracer_of Example.trace1 (DenseV (row 1%Z));
          tracer_of Example.trace1 (DenseV (row 2%Z))].
Proof.
  intros row. split; [reflexivity|]. split; [reflexivity|].
  apply (process_primitive_returns_tracers Example.materialise_custom Example.aval_custom
           Example.default_override Example.resolve_method Example.jit Example.whole_rules
           (Example.ebind 3) Example.trace1 Example.split_p
           (tracer_of Example.trace1 <$> [DenseV (Example.arr [1%Z; 2%Z])])
           Example.no_params Example.state1 Example.state1
           (Many [tracer_of Example.trace1 (DenseV (row 1%Z));
                  tracer_of Example.trace1 (DenseV (row 2%Z))])).
  reflexivity.
Defined.

(** ** More on the default materialisation *)

Lemma collect_defaults_bad values : forall acc,
  Exists (fun x => _is_value x = false /\ is_array_like x = false) values ->
  collect_defaults values acc = Err AssertionError.
Proof.
  induction values as [|x values IH]; intros acc Hex; [by inversion Hex|].
  simpl. apply Exists_cons in Hex as [[Hv Ha]|Hex].
  - by rewrite Hv, Ha.
  - destruct (_is_value x); [case_decide; by apply IH|].
    destruct (is_array_like x); [by apply IH|done].
Qed.

(** X5: an operand that is neither a [Value] nor array-like makes
    [_default_process] fail its assertion, whatever the other operands are
    and whatever overrides they expose; neither an override nor the
    built-in implementation runs, and no ambiguity is reported. *)
Theorem default_process_rejects_foreign_operand
    (materialise_custom : Class -> list Z -> list Obj -> M Obj)
    (default_override : Class -> Primitive -> list Obj -> Params -> M Out)
    (bind : Primitive -> list Obj -> Params -> M Out)
    (primitive : Primitive) (values : list Obj) (params : Params) (s : TraceState) :
  Exists (fun x => _is_value x = false /\ is_array_like x = false) values ->
  _default_process materialise_custom default_override bind primitive values params s =
  (Err AssertionError, s).
Proof.
  intros Hex. unfold _default_process, bindM, lift_result.
  by rewrite (collect_defaults_bad values [] Hex).
Qed.

Lemma default_process_rejects_foreign_operand_witness :
  _default_process Example.materialise_custom Example.default_override (Example.ebind 3)
    Example.add_p [Example.a1; Example.b1; Other "str"] Example.no_params Example.state1 =
  (Err AssertionError, Example.state1).
Proof.
  apply default_process_rejects_foreign_operand.
  right. right. left. split; reflexivity.
Defined.

(** X6: the overrides that [_default_process] collects do not depend on the
    order of the operands: for operands that are values or array-likes, a
    reordering collects the same overrides, each once, so the same branch
    (base fallback, single override, ambiguity) is taken. *)
Theorem collected_overrides_unordered (values values' : list Obj) :
  Forall operand values -> values ≡ₚ values' ->
  exists ds ds', collect_defaults values [] = Ok ds
                 /\ collect_defaults values' [] = Ok ds'
                 /\ NoDup ds /\ ds ≡ₚ ds' /\ length ds = length ds'.
Proof.
  intros Hops Hperm.
  assert (Hops' : Forall operand values') by (by rewrite <- Hperm).
  destruct (collect_defaults_spec values [] Hops (NoDup_nil_2 (A:=DefaultFn)))
    as (ds & Hc & Hnd & Hds).
  destruct (collect_defaults_spec values' [] Hops' (NoDup_nil_2 (A:=DefaultFn)))
    as (ds' & Hc' & Hnd' & Hds').
  assert (Hp : ds ≡ₚ ds').
  { apply NoDup_Permutation; [done..|]. intros d. rewrite Hds, Hds'.
    unfold overrides. by rewrite Hperm. }
  exists ds, ds'. repeat split; try done. by rewrite Hp.
Qed.

Lemma collected_overrides_unordered_witness :
  exists ds ds',
    collect_defaults [Example.a1; Example.arr [1%Z]; Example.b1] [] = Ok ds
    /\ collect_defaults [Example.b1; Example.a1; Example.arr [1%Z]] [] = Ok ds'
    /\ NoDup ds /\ ds ≡ₚ ds' /\ length ds = length ds'.
Proof.
  apply collected_overrides_unordered.
  - by apply operands_check.
  - apply Permutation_sym.
    apply (Permutation_cons_append [Example.a1; Example.arr [1%Z]] Example.b1).
Defined.

Lemma for_each_err_at {A B} (f : A -> M B) (g : A -> B) pre x post s e :
  (forall y, y ∈ pre -> f y s = (Ok (g y), s)) ->
  f x s = (Err e, s) ->
  for_each f (pre ++ x :: post) s = (Err e, s).
Proof.
  induction pre as [|y pre IH]; intros Hpre Hx; simpl.
  - by apply bindM_err.
  - rewrite (bindM_ok _ _ s (g y) s); [|apply Hpre; left].
    apply bindM_err. apply IH; [|done]. intros z Hz. apply Hpre. by right.
Qed.

(** X7: a [materialise] that raises is what the caller sees.  When no
    operand overrides [default] and the first custom operand that cannot be
    materialised raises [e], the default materialisation raises [e], the
    primitive is not bound at all, and the trace state is as before. *)
Theorem unsupported_materialisation_surfaces
    (materialise_custom : Class -> list Z -> list Obj -> M Obj)
    (default_override : Class -> Primitive -> list Obj -> Params -> M Out)
    (bind : Primitive -> list Obj -> Params -> M Out) (mat : Obj -> Obj)
    (primitive : Primitive) (pre post : list Obj) (x : Obj) (params : Params)
    (e : Exn) (s : TraceState) :
  Forall operand (pre ++ x :: post) ->
  overrides (pre ++ x :: post) = [] ->
  (forall y, y ∈ pre -> is_array_like y = false ->
     materialise materialise_custom y (eval_state s) = (Ok (mat y), eval_state s)) ->
  is_array_like x = false ->
  materialise materialise_custom x (eval_state s) = (Err e, eval_state s) ->
  _default_process materialise_custom default_override bind primitive
                   (pre ++ x :: post) params s = (Err e, s).
Proof.
  intros Hops Hnone Hpre Hx He.
  rewrite default_process_base by done.
  apply ensure_eval_preserved. unfold Value_default. apply bindM_err.
  apply for_each_err_at with (g := fun y => if is_array_like y then y else mat y).
  - intros y Hy. destruct (is_array_like y) eqn:Ha; [done|]. by apply Hpre.
  - by rewrite Hx.
Qed.

Lemma unsupported_materialisation_surfaces_witness :
  _default_process Example.materialise_custom Example.default_override (Example.ebind 3)
    Example.add_p [Example.v1; CustomV Example.V [] []] Example.no_params Example.state1 =
  (Err (Raised "unsupported"), Example.state1).
Proof.
  apply (unsupported_materialisation_surfaces Example.materialise_custom
           Example.default_override (Example.ebind 3) Example.mat Example.add_p
           [Example.v1] [] (CustomV Example.V [] [])).
  - by apply operands_check.
  - reflexivity.
  - intros y Hy _. apply list_elem_of_singleton in Hy as ->. reflexivity.
  - reflexivity.
  - reflexivity.
Defined.

(** ** The entry point on values and tracers *)

(** X8: [quaxify] of the identity function gives back its arguments: a
    plain array and a custom value come back as they went in, and a
    [_DenseArrayValue] passed in by the caller comes back as the array it
    holds.  The trace state is as before. *)
Theorem quaxify_identity (args : list Obj) (s : TraceState) :
  Forall (fun x => is_plain x = true \/ _is_value x = true) args ->
  _Quaxify_call (fun xs => ret (Many xs)) args s = (Ok (Many (unwrap_dense <$> args)), s).
Proof.
  intros Hargs. rewrite Quaxify_call_unfold. apply new_main_preserved.
  erewrite bindM_ok; [|reflexivity]. cbn [tree_map_out].
  set (trace := mkTrace (entry_main s) (cur_sublevel (entered s))).
  assert (H : for_each (tree_map (_unwrap_tracer trace)) (wrapped trace <$> args) (entered s) =
              (Ok (unwrap_dense <$> args), entered s)).
  { induction Hargs as [|x xs Hx _ IH]; [done|].
    rewrite !fmap_cons. cbn [for_each].
    erewrite bindM_ok; [by rewrite (bindM_ok _ _ _ _ _ IH)|].
    destruct Hx as [Hx|Hx].
    - by destruct x.
    - unfold wrapped. rewrite Hx. cbn [tree_map tracer_of].
      apply (unwrap_tracer_same trace). }
  by rewrite (bindM_ok _ _ _ _ _ H).
Qed.

Lemma quaxify_identity_witness :
  _Quaxify_call (fun xs => ret (Many xs))
    [Example.arr [1%Z]; Example.a1; DenseV (Example.arr [2%Z])] initial_state =
  (Ok (Many [Example.arr [1%Z]; Example.a1; Example.arr [2%Z]]), initial_state).
Proof.
  apply (quaxify_identity [Example.arr [1%Z]; Example.a1; DenseV (Example.arr [2%Z])]).
  constructor; [by left|]. constructor; [by right|].
  constructor; [by right|]. constructor.
Defined.

(** X9: at the end of a wrapped call, a result that is a tracer of an
    enclosing call (a lower level, a sublevel not above the current one) is
    handed back as that tracer, unchanged; a tracer of a sublevel above the
    current one, whatever its main trace, and a tracer of a higher level,
    which has escaped its own call, raise the host's tracer error. *)
Theorem unwrap_tracer_by_level (trace : Trace) (l sl : nat) (v : Obj) (s : TraceState) :
  (l < main_level (main trace) -> sl <= sublevel trace ->
     _unwrap_tracer trace (QTracer l sl v) s = (Ok (QTracer l sl v), s))
  /\ (sublevel trace < sl ->
     _unwrap_tracer trace (QTracer l sl v) s = (Err UnexpectedTracerError, s))
  /\ (main_level (main trace) < l ->
     _unwrap_tracer trace (QTracer l sl v) s = (Err UnexpectedTracerError, s)).
Proof.
  unfold _unwrap_tracer, full_raise, lift, sublift, _QuaxTracer, bindM.
  cbn [is_array_like _is_value]. repeat split; intros.
  - rewrite decide_False, decide_True, decide_False by lia. done.
  - repeat case_decide; try lia; done.
  - rewrite decide_False, decide_False by lia. done.
Qed.

Lemma unwrap_tracer_by_level_witness :
  _unwrap_tracer (mkTrace (mkMain 2 QuaxTrace) 0) (QTracer 1 0 Example.a1) Example.state1 =
    (Ok (QTracer 1 0 Example.a1), Example.state1)
  /\ _unwrap_tracer Example.trace1 (QTracer 1 1 Example.a1) Example.state1 =
    (Err UnexpectedTracerError, Example.state1)
  /\ _unwrap_tracer Example.trace1 (QTracer 2 0 Example.a1) Example.state1 =
    (Err UnexpectedTracerError, Example.state1).
Proof.
  split; [|split].
  - apply (proj1 (unwrap_tracer_by_level (mkTrace (mkMain 2 QuaxTrace) 0) 1 0 _ _));
      simpl; lia.
  - apply (proj1 (proj2 (unwrap_tracer_by_level Example.trace1 1 1 _ _))); simpl; lia.
  - apply (proj2 (proj2 (unwrap_tracer_by_level Example.trace1 2 0 _ _))); simpl; lia.
Defined.

(** ** Binds under the interpreter *)

Section Binds.

Variable materialise_custom : Class -> list Z -> list Obj -> M Obj.
Variable aval_custom : Class -> list Z -> list Obj -> Result Aval.
Variable default_override : Class -> Primitive -> list Obj -> Params -> M Out.
Variable impl : Primitive -> list Obj -> Params -> Result Out.
Variable resolve_method : Function -> list Obj -> Resolution.
Variable jit : (list Obj -> M Out) -> list Obj -> M Out.
Variable _rules : gmap Primitive Function.

Local Abbreviation host_bind :=
  (bind materialise_custom aval_custom default_override impl resolve_method jit _rules).

Lemma find_top_trace_quax xs s :
  trace_type (dynamic s) = QuaxTrace ->
  exists m, trace_type m = QuaxTrace /\
            find_top_trace xs s = (Ok (mkTrace m (cur_sublevel s)), s).
Proof.
  intros Hdyn. unfold find_top_trace, with_cur_sublevel.
  destruct (top_level xs) as [l|]; [|by exists (dynamic s)].
  case_decide; [by exists (dynamic s)|]. by exists (mkMain l QuaxTrace).
Qed.

(** X10: an object that is neither array-like nor a [Value], bound as an
    operand after plain arrays while a [_QuaxTrace] is the dynamic trace,
    stops the bind in [pure] with a [TypeError] that prints its type.  The
    registry is not looked at: this holds for every registry and whatever
    the other operands are. *)
Theorem bind_rejects_foreign_object (fuel : nat) (primitive : Primitive)
    (pre post : list Obj) (o : Obj) (params : Params) (s : TraceState) :
  forallb is_plain pre = true ->
  _is_value o = false -> is_array_like o = false ->
  trace_type (dynamic s) = QuaxTrace ->
  host_bind (S fuel) primitive (pre ++ o :: post) params s =
    (Err (TypeError (not_jax_type_msg o)), s)
  /\ contains (not_jax_type_msg o) (type_repr (type_of o)).
Proof.
  intros Hpre Hv Ha Hdyn. split; [|by exists "", " is not a JAX type."].
  cbn [bind].
  destruct (find_top_trace_quax (pre ++ o :: post) s Hdyn) as (m & Hm & Hfind).
  rewrite (bindM_ok _ _ _ _ _ Hfind). cbn [main]. rewrite Hm.
  apply bindM_err. apply bindM_err.
  apply for_each_err_at
    with (g := fun y => tracer_of (mkTrace m (cur_sublevel s)) (DenseV y)).
  - intros y Hy. apply plain_forall in Hpre.
    pose proof (proj1 (Forall_forall _ _) Hpre y Hy) as Hp. by destruct y.
  - unfold full_raise, pure. destruct o; try done.
Qed.

Lemma raise_operands trace xs s :
  Forall (fun x => is_plain x = true \/ exists v, x = tracer_of trace v) xs ->
  for_each (full_raise trace) xs s =
  (Ok (tracer_of trace <$>
         ((fun x => match x with QTracer _ _ v => v | _ => DenseV x end) <$> xs)), s).
Proof.
  intros Hxs. rewrite <- list_fmap_compose. apply for_each_ok. intros x Hx.
  destruct (proj1 (Forall_forall _ _) Hxs x Hx) as [Hp|[v ->]].
  - by destruct x.
  - apply full_raise_same.
Qed.

Lemma top_trace_current xs s :
  trace_type (dynamic s) = QuaxTrace ->
  Forall (fun x => is_plain x = true \/
                   exists v, x = tracer_of (mkTrace (dynamic s) (cur_sublevel s)) v) xs ->
  find_top_trace xs s = (Ok (mkTrace (dynamic s) (cur_sublevel s)), s).
Proof.
  intros Hdyn Hxs. unfold find_top_trace, with_cur_sublevel.
  assert (Htop : top_level xs = None \/ top_level xs = Some (main_level (dynamic s))).
  { induction Hxs as [|x xs Hx _ IH]; [by left|]. simpl.
    destruct Hx as [Hp|[v ->]].
    - by destruct x.
    - right. cbn [tracer_of tracer_level main].
      destruct IH as [->| ->]; [done|]. by rewrite Nat.max_id. }
  destruct Htop as [->| ->]; [done|].
  rewrite decide_False by lia. by destruct (dynamic s) as [l []].
Qed.

Lemma bind_current_trace fuel primitive xs params s :
  trace_type (dynamic s) = QuaxTrace ->
  Forall (fun x => is_plain x = true \/
                   exists v, x = tracer_of (mkTrace (dynamic s) (cur_sublevel s)) v) xs ->
  host_bind (S fuel) primitive xs params s =
    (let* out :=
       (let* out := dispatch_primitive materialise_custom default_override resolve_method
                      jit _rules (host_bind fuel) primitive (operand_seen <$> xs) params in
        wrap_results aval_custom (host_bind fuel)
          (mkTrace (dynamic s) (cur_sublevel s)) primitive out) in
     ret (lower_out (multiple_results primitive) out)) s.
Proof.
  intros Hdyn Hxs. set (trace := mkTrace (dynamic s) (cur_sublevel s)).
  cbn [bind]. rewrite (bindM_ok _ _ _ _ _ (top_trace_current xs s Hdyn Hxs)).
  cbn [main]. rewrite Hdyn. fold trace.
  unfold bindM at 1. unfold bindM at 3.
  rewrite (bindM_ok _ _ _ _ _ (raise_operands trace xs s Hxs)).
  rewrite process_primitive_unfold.
  assert (Hseen : unwrap_dense <$>
                    ((fun x => match x with QTracer _ _ v => v | _ => DenseV x end) <$> xs) =
                  operand_seen <$> xs).
  { rewrite <- list_fmap_compose. apply list_fmap_ext. intros i x _. by destruct x. }
  by rewrite Hseen.
Qed.

(** X11: a bind whose operands are plain arrays and tracers of the current
    trace is dispatched on the operands as the rules expect them: plain
    arrays as they are and, for each tracer, its payload, with a
    [_DenseArrayValue] taken off.  The results are wrapped and then
    lowered, so a plain array that a rule returns comes back as a plain
    array and a custom value comes back in a tracer of the current trace. *)
Theorem bind_dispatches_on_payloads (fuel : nat) (primitive : Primitive)
    (xs : list Obj) (params : Params) (s : TraceState) :
  let trace := mkTrace (dynamic s) (cur_sublevel s) in
  trace_type (dynamic s) = QuaxTrace ->
  Forall (fun x => is_plain x = true \/ exists v, x = tracer_of trace v) xs ->
  host_bind (S fuel) primitive xs params s =
    (let* out :=
       (let* out := dispatch_primitive materialise_custom default_override resolve_method
                      jit _rules (host_bind fuel) primitive (operand_seen <$> xs) params in
        wrap_results aval_custom (host_bind fuel) trace primitive out) in
     ret (lower_out (multiple_results primitive) out)) s
  /\ (forall a, lower_out false (One (tracer_of trace (_wrap_if_array (Arr a)))) =
                One (Arr a))
  /\ (forall c aux fields,
        lower_out false (One (tracer_of trace (_wrap_if_array (CustomV c aux fields)))) =
        One (tracer_of trace (CustomV c aux fields))).
Proof.
  intros trace Hdyn Hxs. split; [by apply bind_current_trace|done].
Qed.

(** X17: end to end, for a function of two arguments that binds one
    primitive on them: called through [quaxify] on plain arrays or custom
    values, it returns what the interception (the resolved rule, or the
    default materialisation) returns for these very operands, a plain array
    or a custom value, with no tracer and no [_DenseArrayValue] left in the
    result; the trace state is as before. *)
Theorem quaxify_returns_dispatch_result (fuel : nat) (primitive : Primitive)
    (params : Params) (x y r : Obj) (s : TraceState) :
  multiple_results primitive = false ->
  (is_plain x = true \/ exists c aux fields, x = CustomV c aux fields) ->
  (is_plain y = true \/ exists c aux fields, y = CustomV c aux fields) ->
  (is_plain r = true \/ exists c aux fields, r = CustomV c aux fields) ->
  dispatch_primitive materialise_custom default_override resolve_method jit _rules
    (host_bind fuel) primitive [x; y] params (entered s) = (Ok (One r), entered s) ->
  quaxify materialise_custom aval_custom
          default_override impl resolve_method jit _rules (S fuel)
    (mkJaxpr [mkEqn primitive [Var 0; Var 1] params] [Var 2]) [x; y] s =
  (Ok (Many [r]), s).
Proof.
  intros Hmr Hx Hy Hr Hdisp.
  unfold quaxify. rewrite Quaxify_call_unfold. apply new_main_preserved.
  set (trace := mkTrace (entry_main s) (cur_sublevel (entered s))).
  assert (Hseen : forall z, (is_plain z = true \/ exists c aux fields, z = CustomV c aux fields) ->
            operand_seen (wrapped trace z) = z /\
            (is_plain (wrapped trace z) = true \/ exists v, wrapped trace z = tracer_of trace v)).
  { intros z [Hz|(c & aux & fields & ->)].
    - destruct z; try done. split; [done|by left].
    - split; [done|]. right. by eexists. }
  destruct (Hseen x Hx) as [Hsx Hwx]. destruct (Hseen y Hy) as [Hsy Hwy].
  assert (Hbind : host_bind (S fuel) primitive [wrapped trace x; wrapped trace y] params
                    (entered s) =
                  (Ok (One (if is_plain r then r else tracer_of trace r)), entered s)).
  { rewrite bind_current_trace;
      [|done|constructor; [exact Hwx|]; constructor; [exact Hwy|constructor]].
    cbn [fmap list_fmap]. rewrite Hsx, Hsy.
    unfold bindM at 1. rewrite (bindM_ok _ _ _ _ _ Hdisp).
    unfold wrap_results. rewrite Hmr.
    destruct Hr as [Hr|(c & aux & fields & ->)]; [by destruct r|done]. }
  assert (Hrun : jaxpr_as_fun (host_bind (S fuel))
                   (mkJaxpr [mkEqn primitive [Var 0; Var 1] params] [Var 2])
                   (wrapped trace <$> [x; y]) (entered s) =
                 (Ok (Many [if is_plain r then r else tracer_of trace r]), entered s)).
  { unfold jaxpr_as_fun.
    cbn [eqns outvars eval_eqns eqn_invars eqn_primitive eqn_params fmap list_fmap].
    erewrite bindM_ok; cycle 1.
    { erewrite bindM_ok; [|reflexivity]. by rewrite (bindM_ok _ _ _ _ _ Hbind). }
    done. }
  rewrite (bindM_ok _ _ _ _ _ Hrun). cbn [tree_map_out for_each].
  assert (Hun : tree_map (_unwrap_tracer trace)
                  (if is_plain r then r else tracer_of trace r) (entered s) =
                (Ok r, entered s)).
  { destruct Hr as [Hr|(c & aux & fields & ->)]; [by destruct r|].
    cbn [is_plain tree_map tracer_of]. apply (unwrap_tracer_same trace). }
  erewrite bindM_ok; [done|].
  by rewrite (bindM_ok _ _ _ _ _ Hun).
Qed.

End Binds.

Lemma bind_rejects_foreign_object_witness :
  Example.ebind 3 Example.add_p [Example.arr [1%Z]; Other "str"; Example.a1]
    Example.no_params Example.state1 =
  (Err (TypeError "<class 'str'> is not a JAX type."), Example.state1).
Proof.
  apply (bind_rejects_foreign_object Example.materialise_custom Example.aval_custom
           Example.default_override
           Example.impl Example.resolve_method Example.jit Example._rules
           2 Example.add_p [Example.arr [1%Z]] [Example.a1] (Other "str"));
    reflexivity.
Defined.

Lemma bind_dispatches_on_payloads_witness :
  Example.ebind 3 Example.add_p
    [tracer_of Example.trace1 Example.v1; Example.arr [5%Z]]
    Example.no_params Example.state1 =
  (Ok (One (Example.arr [6%Z])), Example.state1)
  /\ Example.ebind 3 Example.add_p
       [tracer_of Example.trace1 Example.a1; tracer_of Example.trace1 Example.a2]
       Example.no_params Example.state1 =
     (Ok (One (tracer_of Example.trace1 (CustomV Example.A [7%Z] []))), Example.state1).
Proof.
  split.
  - destruct (bind_dispatches_on_payloads Example.materialise_custom
                Example.aval_custom Example.default_override Example.impl
                Example.resolve_method Example.jit
                Example._rules 2 Example.add_p
                [tracer_of Example.trace1 Example.v1; Example.arr [5%Z]]
                Example.no_params Example.state1) as [H _]; [reflexivity| |].
    + constructor; [right; by eexists|]. constructor; [by left|constructor].
    + unfold Example.ebind. rewrite H. reflexivity.
  - destruct (bind_dispatches_on_payloads Example.materialise_custom
                Example.aval_custom Example.default_override Example.impl
                Example.resolve_method Example.jit
                Example._rules 2 Example.add_p
                [tracer_of Example.trace1 Example.a1; tracer_of Example.trace1 Example.a2]
                Example.no_params Example.state1) as [H _]; [reflexivity| |].
    + constructor; [right; by eexists|]. constructor; [right; by eexists|constructor].
    + unfold Example.ebind. rewrite H. reflexivity.
Defined.

(** ** Compiled subgraphs on any operands *)

Section CompiledSubgraph.

Variable materialise_custom : Class -> list Z -> list Obj -> M Obj.
Variable aval_custom : Class -> list Z -> list Obj -> Result Aval.
Variable default_override : Class -> Primitive -> list Obj -> Params -> M Out.
Variable impl : Primitive -> list Obj -> Params -> Result Out.
Variable resolve_method : Function -> list Obj -> Resolution.
Variable jit : (list Obj -> M Out) -> list Obj -> M Out.
Variable _rules : gmap Primitive Function.

Hypothesis materialise_bracketed :
  forall c aux fields, preserves_state (materialise_custom c aux fields).
Hypothesis override_bracketed :
  forall c p values params, preserves_state (default_override c p values params).
Hypothesis rules_bracketed :
  forall p rule values f,
    _rules !! p = Some rule -> resolve_method rule values = Found (ClientRule f) ->
    forall vs params, preserves_state (f vs params).

(** The host's compiler keeps the meaning of the function it compiles. *)
Hypothesis jit_transparent : forall f x s, jit f x s = f x s.

Local Abbreviation host_bind :=
  (bind materialise_custom aval_custom default_override impl resolve_method jit _rules).
Local Abbreviation process_prim :=
  (process_primitive materialise_custom aval_custom
                     default_override resolve_method jit _rules).

Lemma jit_bracketed f x :
  (forall y, preserves_state (f y)) -> preserves_state (jit f x).
Proof. intros H s. rewrite jit_transparent. apply H. Qed.



End CompiledSubgraph.



(** ** Compiled subgraphs on plain arrays *)

Section CompiledOnArrays.

Variable materialise_custom : Class -> list Z -> list Obj -> M Obj.
Variable aval_custom : Class -> list Z -> list Obj -> Result Aval.
Variable default_override : Class -> Primitive -> list Obj -> Params -> M Out.
Variable impl : Primitive -> list Obj -> Params -> Result Out.
Variable resolve_method : Function -> list Obj -> Resolution.
Variable jit : (list Obj -> M Out) -> list Obj -> M Out.
Variable _rules : gmap Primitive Function.

Hypothesis impl_arrays : returns_arrays impl.
Hypothesis jit_transparent : forall f x s, jit f x s = f x s.

Local Abbreviation host_bind :=
  (bind materialise_custom aval_custom default_override impl resolve_method jit _rules).

(** A wrapped call of a function on arrays, entered from any trace state,
    returns what the function returns under the evaluating trace. *)
Lemma Quaxify_call_on_arrays fuel j args s s0 :
  forallb is_plain args = true ->
  plain_jaxpr j ->
  Forall (fun e => unresolved_on_arrays resolve_method _rules (eqn_primitive e)) (eqns j) ->
  trace_type (dynamic s0) = EvalTrace ->
  _Quaxify_call (jaxpr_as_fun (host_bind (S (S fuel))) j) args s =
  ((jaxpr_as_fun (host_bind (S (S fuel))) j args s0).1, s).
Proof.
  intros Hargs [Hes Houts] Hun Hdyn.
  rewrite Quaxify_call_unfold.
  destruct (eval_eqns_plain materialise_custom aval_custom
                            default_override impl resolve_method jit
              _rules impl_arrays fuel (eqns j) args (entered s) s0 Hargs Hes Hun
              eq_refl Hdyn) as (r & Hq & He & Hp).
  unfold jaxpr_as_fun.
  destruct r as [env|err]; cycle 1.
  { rewrite (bindM_err _ _ _ _ _ He). apply new_main_preserved.
    rewrite (wrapped_plain _ _ Hargs). apply bindM_err. by apply bindM_err. }
  rewrite (bindM_ok _ _ _ _ _ He).
  destruct (reads_plain env (outvars j)) as (ro & Hro & Hpo).
  destruct ro as [outs|err]; cycle 1.
  { rewrite (bindM_err _ _ _ _ _ (Hro s0)). apply new_main_preserved.
    rewrite (wrapped_plain _ _ Hargs).
    apply bindM_err. rewrite (bindM_ok _ _ _ _ _ Hq).
    by rewrite (bindM_err _ _ _ _ _ (Hro _)). }
  rewrite (bindM_ok _ _ _ _ _ (Hro s0)). apply new_main_preserved.
  rewrite (wrapped_plain _ _ Hargs).
  erewrite bindM_ok; cycle 1.
  { rewrite (bindM_ok _ _ _ _ _ Hq). by rewrite (bindM_ok _ _ _ _ _ (Hro _)). }
  apply unwrap_plain. apply Hpo; auto.
Qed.

(** X12: on plain arrays the rule for compiled subgraphs is transparent:
    with or without the inline flag it returns what the jaxpr returns when
    run under the evaluating trace, and raises what it raises, as long as
    no rule is resolved on plain arrays for the primitives inside; the
    trace state is as before.  So a compiled function of arrays keeps its
    meaning under [quaxify], although this rule is resolved for it. *)
Theorem pjit_rule_on_arrays (fuel : nat) (j : Jaxpr) (args : list Obj)
    (others : list (string * Z)) (inl : bool) (s s0 : TraceState) :
  forallb is_plain args = true ->
  plain_jaxpr j ->
  Forall (fun e => unresolved_on_arrays resolve_method _rules (eqn_primitive e)) (eqns j) ->
  trace_type (dynamic s0) = EvalTrace ->
  pjit_rule jit (host_bind (S (S fuel))) args (mkParams (Some j) inl others) s =
  ((jaxpr_as_fun (host_bind (S (S fuel))) j args s0).1, s).
Proof.
  intros Hargs Hj Hun Hdyn. unfold pjit_rule. cbn [jaxpr inline].
  destruct inl; [by apply Quaxify_call_on_arrays|].
  pose proof (tree_unflatten_flatten args) as Hrt.
  destruct (tree_flatten args) as [leaves treedef]. cbn [fst snd] in Hrt.
  apply ensure_eval_preserved. rewrite jit_transparent.
  unfold lift_result. erewrite bindM_ok; [|by rewrite Hrt].
  by apply Quaxify_call_on_arrays.
Qed.

End CompiledOnArrays.

Lemma pjit_rule_on_arrays_witness :
  pjit_rule Example.jit (Example.ebind 3) [Example.arr [3%Z]; Example.arr [4%Z]]
    (mkParams (Some Example.neg_add) false []) Example.state1 =
    (Ok (Many [Example.arr [(-7)%Z]]), Example.state1)
  /\ pjit_rule Example.jit (Example.ebind 3) [Example.arr [3%Z]; Example.arr [4%Z]]
       (mkParams (Some Example.neg_add) true []) Example.state1 =
     (Ok (Many [Example.arr [(-7)%Z]]), Example.state1).
Proof.
  assert (Hun : Forall (fun e => unresolved_on_arrays Example.resolve_method Example._rules
                                   (eqn_primitive e)) (eqns Example.neg_add)).
  { unfold Example.neg_add. cbn [eqns].
    constructor; [exact example_add_unresolved|].
    constructor; [exact example_neg_unresolved | constructor]. }
  split.
  - apply (pjit_rule_on_arrays Example.materialise_custom Example.aval_custom
             Example.default_override
             Example.impl Example.resolve_method Example.jit Example._rules
             example_impl_arrays (fun f x s => eq_refl) 1 Example.neg_add
             [Example.arr [3%Z]; Example.arr [4%Z]] [] false Example.state1 initial_state);
      [reflexivity | split; [repeat constructor | reflexivity] | exact Hun | reflexivity].
  - apply (pjit_rule_on_arrays Example.materialise_custom Example.aval_custom
             Example.default_override
             Example.impl Example.resolve_method Example.jit Example._rules
             example_impl_arrays (fun f x s => eq_refl) 1 Example.neg_add
             [Example.arr [3%Z]; Example.arr [4%Z]] [] true Example.state1 initial_state);
      [reflexivity | split; [repeat constructor | reflexivity] | exact Hun | reflexivity].
Defined.

(** ** More on the custom-derivative bridge *)

Lemma tree_flatten_leaf_count xs :
  length (tree_flatten xs).1 = leaf_count (tree_flatten xs).2.
Proof.
  induction xs as [|x xs IH]; [done|].
  rewrite tree_flatten_cons. cbn [fst snd]. rewrite length_app, IH. by destruct x.
Qed.

Lemma QuaxTracers_of_values trace (vs : list Obj) s :
  Forall (fun v => _is_value v = true) vs ->
  for_each (_QuaxTracer trace) vs s = (Ok (tracer_of trace <$> vs), s).
Proof.
  intros Hvs. apply for_each_ok. intros v Hv. unfold _QuaxTracer.
  by rewrite (proj1 (Forall_forall _ _) Hvs v Hv).
Qed.

Lemma values_of_tracers trace (vs : list Obj) s :
  for_each (fun t => let* t := full_raise trace t in tracer_value t)
           (tracer_of trace <$> vs) s = (Ok vs, s).
Proof.
  induction vs as [|v vs IH]; [done|].
  rewrite fmap_cons. cbn [for_each].
  erewrite bindM_ok; [by rewrite (bindM_ok _ _ _ _ _ IH)|].
  by rewrite (bindM_ok _ _ _ _ _ (full_raise_same trace v s)).
Qed.

Lemma no_symbolic_zero (jnp_zeros : Aval -> M Obj) trace (vs : list Obj) s :
  for_each (fun t => match t with SymZero aval => jnp_zeros aval | _ => ret t end)
           (tracer_of trace <$> vs) s = (Ok (tracer_of trace <$> vs), s).
Proof.
  rewrite <- (list_fmap_id (tracer_of trace <$> vs)) at 2.
  apply for_each_ok. intros t Ht. apply list_elem_of_fmap in Ht as (v & -> & _). done.
Qed.

Section Bridge.

Variable materialise_custom : Class -> list Z -> list Obj -> M Obj.
Variable jnp_zeros : Aval -> M Obj.

(** X13: an odd number of outputs of the derivative function cannot be
    split into primals and tangents: the wrapper fails its assertion, and
    neither materialises nor flattens anything. *)
Theorem jvp_outputs_odd (trace : Trace) (out_tracers out_tracers' out_values : list Obj)
    (s : TraceState) :
  for_each (fun t => match t with SymZero aval => jnp_zeros aval | _ => ret t end)
           out_tracers s = (Ok out_tracers', s) ->
  for_each (fun t => let* t := full_raise trace t in tracer_value t) out_tracers' s =
    (Ok out_values, s) ->
  Nat.Odd (length out_values) ->
  jvp_wrap_outputs materialise_custom jnp_zeros trace out_tracers s =
  (Err AssertionError, s).
Proof.
  intros Hzero Hvals [k Hk]. unfold jvp_wrap_outputs.
  rewrite (bindM_ok _ _ _ _ _ Hzero), (bindM_ok _ _ _ _ _ Hvals).
  rewrite decide_True; [done|].
  rewrite length_take, length_drop, Hk.
  replace ((2 * k + 1) / 2) with k; [lia|].
  apply Nat.div_unique with 1; lia.
Qed.

(** X14: a pair of outputs of the same class is never materialised: when
    every primal has the class of its tangent, the reconciliation returns
    the pairs as they are, whatever [materialise] would do. *)
Theorem reconcile_same_class (pairs : list (Obj * Obj)) (s : TraceState) :
  (forall p t, (p, t) ∈ pairs -> type_of p = type_of t) ->
  reconcile materialise_custom pairs s = (Ok pairs, s).
Proof.
  intros Hsame.
  rewrite (reconcile_spec materialise_custom (fun x => x) pairs s).
  - f_equal. f_equal. rewrite <- (list_fmap_id pairs) at 2.
    apply list_fmap_ext. intros i [p t] Hi. unfold reconciled. cbn [fst snd].
    rewrite decide_False; [done|]. intros Hne. apply Hne, Hsame.
    by apply (list_elem_of_lookup_2 _ i).
  - intros p t Hin Hne. destruct Hne. by apply Hsame.
Qed.

(** X15: the derivative function is called on the values it was flattened
    from.  Given the leaves of the primal values followed by the leaves of
    the tangent values, both flattened to the descriptor [in_treedef], the
    wrapper splits them in the middle, rebuilds the values, and calls the
    function on tracers of the current sublevel over them, primals first. *)
Theorem jvp_wrap_rebuilds_inputs (jvp : list Obj -> M (list Obj)) (main : MainTrace)
    (primal_values tangent_values : list Obj) (s : TraceState) :
  Forall (fun v => _is_value v = true) primal_values ->
  Forall (fun v => _is_value v = true) tangent_values ->
  (tree_flatten primal_values).2 = (tree_flatten tangent_values).2 ->
  let trace := mkTrace main (cur_sublevel s) in
  _custom_jvp_jvp_wrap materialise_custom jnp_zeros jvp main
    (tree_flatten primal_values).2
    ((tree_flatten primal_values).1 ++ (tree_flatten tangent_values).1) s =
  (let* out_tracers := jvp (tracer_of trace <$> (primal_values ++ tangent_values)) in
   jvp_wrap_outputs materialise_custom jnp_zeros trace out_tracers) s.
Proof.
  intros Hp Ht Htd trace. unfold _custom_jvp_jvp_wrap.
  erewrite bindM_ok; [|reflexivity]. fold trace.
  assert (Hlen : length (tree_flatten primal_values).1 =
                 length (tree_flatten tangent_values).1).
  { by rewrite !tree_flatten_leaf_count, Htd. }
  destruct (split_halves _ _ Hlen) as [-> ->].
  unfold lift_result.
  erewrite bindM_ok; [|by rewrite tree_unflatten_flatten].
  erewrite bindM_ok; [|by rewrite Htd, tree_unflatten_flatten].
  erewrite bindM_ok; [done|].
  apply QuaxTracers_of_values. by apply Forall_app.
Qed.

Lemma new_sublevel_preserved {A} (body : M A) s r :
  body (mkState (stack s) (dynamic s) (S (cur_sublevel s))) =
    (r, mkState (stack s) (dynamic s) (S (cur_sublevel s))) ->
  new_sublevel body s = (r, s).
Proof. intros H. unfold new_sublevel. rewrite H. by destruct s. Qed.

(** X16: custom values go through a custom-derivative call.  Under the
    evaluating host the forward function is called, in a new sublevel, on
    tracers over the payloads of the operands; when it returns tracers of
    that sublevel over values, the call returns tracers of the calling trace
    over the same values.  The derivative function is not called, and the
    trace state is as before. *)
Theorem custom_jvp_call_keeps_values (self : Trace) (fun_ jvp : list Obj -> M (list Obj))
    (vals outs : list Obj) (symbolic_zeros : bool) (s : TraceState) :
  let inner := mkTrace (main self) (S (cur_sublevel s)) in
  let s1 := mkState (stack (eval_state s)) base_main (S (cur_sublevel s)) in
  Forall (fun v => _is_value v = true) vals ->
  Forall (fun v => _is_value v = true) outs ->
  fun_ (tracer_of inner <$> vals) s1 = (Ok (tracer_of inner <$> outs), s1) ->
  process_custom_jvp_call materialise_custom jnp_zeros eval_custom_jvp_bind
    self fun_ jvp (tracer_of self <$> vals) symbolic_zeros s =
  (Ok (tracer_of self <$> outs), s).
Proof.
  intros inner s1 Hvals Houts Hfun. unfold process_custom_jvp_call.
  rewrite (bindM_ok _ _ _ _ _ (tracer_values self vals s)).
  pose proof (tree_unflatten_flatten vals) as Hin.
  destruct (tree_flatten vals) as [in_leaves in_treedef]. cbn [fst snd] in Hin.
  assert (Hbind : ensure_compile_time_eval
                    (eval_custom_jvp_bind
                       (_custom_jvp_fun_wrap jnp_zeros fun_ (main self) in_treedef)
                       (_custom_jvp_jvp_wrap materialise_custom jnp_zeros jvp (main self)
                          in_treedef)
                       in_leaves symbolic_zeros) s =
                  (Ok (tree_flatten outs), s)).
  { apply ensure_eval_preserved. unfold eval_custom_jvp_bind.
    apply new_sublevel_preserved. fold s1.
    unfold _custom_jvp_fun_wrap.
    erewrite bindM_ok; [|reflexivity]. fold inner.
    unfold lift_result. erewrite bindM_ok; [|by rewrite Hin].
    erewrite bindM_ok; cycle 1.
    { apply (for_each_ok _ (tracer_of inner)). intros v Hv.
      pose proof (proj1 (Forall_forall _ _) Hvals v Hv) as Hval.
      unfold _QuaxTracer. rewrite Hval. by destruct v. }
    rewrite (bindM_ok _ _ _ _ _ Hfun).
    rewrite (bindM_ok _ _ _ _ _ (no_symbolic_zero jnp_zeros inner outs s1)).
    by rewrite (bindM_ok _ _ _ _ _ (values_of_tracers inner outs s1)). }
  rewrite (bindM_ok _ _ _ _ _ Hbind).
  pose proof (tree_unflatten_flatten outs) as Hout.
  destruct (tree_flatten outs) as [out_leaves out_treedef]. cbn [fst snd] in Hout.
  unfold lift_result. erewrite bindM_ok; [|by rewrite Hout].
  by apply QuaxTracers_of_values.
Qed.

End Bridge.

Lemma jvp_outputs_odd_witness :
  jvp_wrap_outputs Example.materialise_custom Example.jnp_zeros Example.trace1
    [tracer_of Example.trace1 Example.a1; tracer_of Example.trace1 Example.a2;
     SymZero (Example.f32 2)] Example.state1 =
  (Err AssertionError, Example.state1).
Proof.
  apply (jvp_outputs_odd Example.materialise_custom Example.jnp_zeros Example.trace1 _
           [tracer_of Example.trace1 Example.a1; tracer_of Example.trace1 Example.a2;
            Example.zeros2]
           [Example.a1; Example.a2; DenseV Example.zeros2]);
    [reflexivity | reflexivity | by exists 1].
Defined.

Lemma reconcile_same_class_witness :
  reconcile Example.materialise_custom
    [(Example.a1, Example.a2); (CustomV Example.V [] [], CustomV Example.V [1%Z] [])]
    Example.state1 =
  (Ok [(Example.a1, Example.a2); (CustomV Example.V [] [], CustomV Example.V [1%Z] [])],
   Example.state1).
Proof.
  apply reconcile_same_class. intros p t Hin.
  apply elem_of_cons in Hin as [[= -> ->]|Hin]; [reflexivity|].
  apply list_elem_of_singleton in Hin as [= -> ->]. reflexivity.
Defined.

Lemma jvp_wrap_rebuilds_inputs_witness :
  _custom_jvp_jvp_wrap Example.materialise_custom Example.jnp_zeros
    (fun xs => ret xs) (mkMain 1 QuaxTrace) [CustomDef Example.A [] 1]
    [Example.arr [1%Z]; Example.arr [2%Z]] Example.state1 =
  (Ok ([Example.arr [1%Z]; Example.arr [2%Z]], [CustomDef Example.A [] 1]), Example.state1).
Proof.
  etransitivity.
  - apply (jvp_wrap_rebuilds_inputs Example.materialise_custom Example.jnp_zeros
             (fun xs => ret xs) (mkMain 1 QuaxTrace) [Example.a1] [Example.a2]
             Example.state1); [by repeat constructor | by repeat constructor | reflexivity].
  - reflexivity.
Defined.

Lemma custom_jvp_call_keeps_values_witness :
  process_custom_jvp_call Example.materialise_custom Example.jnp_zeros eval_custom_jvp_bind
    Example.trace1 (fun xs => ret (rev xs)) (fun xs => raise (Raised "not called"))
    (tracer_of Example.trace1 <$> [Example.a1; Example.v1]) true Example.state1 =
  (Ok (tracer_of Example.trace1 <$> [Example.v1; Example.a1]), Example.state1).
Proof.
  apply (custom_jvp_call_keeps_values Example.materialise_custom Example.jnp_zeros
           Example.trace1 (fun xs => ret (rev xs)) (fun xs => raise (Raised "not called"))
           [Example.a1; Example.v1] [Example.v1; Example.a1] true Example.state1).
  - by repeat constructor.
  - by repeat constructor.
  - reflexivity.
Defined.

Lemma quaxify_returns_dispatch_result_witness :
  quaxify Example.materialise_custom Example.aval_custom
          Example.default_override Example.impl
    Example.resolve_method Example.jit Example._rules 3 Example.add_jaxpr
    [Example.a1; Example.a2] initial_state =
    (Ok (Many [CustomV Example.A [7%Z] []]), initial_state)
  /\ quaxify Example.materialise_custom Example.aval_custom
             Example.default_override Example.impl
       Example.resolve_method Example.jit Example._rules 3 Example.add_jaxpr
       [Example.v1; Example.arr [5%Z]] initial_state =
     (Ok (Many [Example.arr [6%Z]]), initial_state).
Proof.
  split.
  - apply (quaxify_returns_dispatch_result Example.materialise_custom
             Example.aval_custom Example.default_override Example.impl
             Example.resolve_method Example.jit
             Example._rules 2 Example.add_p Example.no_params Example.a1 Example.a2
             (CustomV Example.A [7%Z] []) initial_state);
      [reflexivity | right; by repeat eexists | right; by repeat eexists
       | right; by repeat eexists | reflexivity].
  - apply (quaxify_returns_dispatch_result Example.materialise_custom
             Example.aval_custom Example.default_override Example.impl
             Example.resolve_method Example.jit
             Example._rules 2 Example.add_p Example.no_params Example.v1
             (Example.arr [5%Z]) (Example.arr [6%Z]) initial_state);
      [reflexivity | right; by repeat eexists | by left | by left | reflexivity].
Defined.
